(** * UART packet protocol (uart_comm.c): CRC-8, frame validation, link session

    A shallow embedding of [calc_crc8], [send_byte], [handle_packet] and the
    loop of [app_main].  Bytes ([uint8_t]) are integers in [0, 256) with the
    truncation of the 8-bit type written out; [int] and [size_t] values are
    unbounded integers (no value of the program comes near their limits).
    Memory is a block of bytes addressed through a pointer (block and
    offset); a read outside the block is a fault.  Output (the UART writes
    and the log lines) is a trace of events, in program order. *)

From Stdlib Require Import ZArith List Bool Lia.
Import ListNotations.
Local Open Scope Z_scope.

(** ** Constants of the protocol *)

Definition BUF_SIZE : Z := 1024.
Definition HEADER : Z := 0xAA.
Definition END_ : Z := 0xBB.
Definition HANDSHAKE_REQ : Z := 0xB1.
Definition HANDSHAKE_RESP : Z := 0x55.
Definition ACK : Z := 0x06.
Definition NACK : Z := 0x15.

(** ** Bytes *)

(** Conversion to [uint8_t]. *)
Definition to_uint8 (z : Z) : Z := z mod 256.

Definition is_uint8 (z : Z) : bool := (0 <=? z) && (z <? 256).

Definition bytes_ok (l : list Z) : Prop := forallb is_uint8 l = true.

(** ** Memory: a block of bytes and pointers into it *)

Record ptr : Type := mkptr { blk : list Z; ofs : Z }.

Definition ptr_add (p : ptr) (n : Z) : ptr := mkptr (blk p) (ofs p + n).

(** [p[i]]: [None] when the access falls outside the block. *)
Definition load (p : ptr) (i : Z) : option Z :=
  let k := ofs p + i in
  if k <? 0 then None else nth_error (blk p) (Z.to_nat k).

(** ** A small error monad for faulting reads *)

Definition bind {A B : Type} (m : option A) (f : A -> option B) : option B :=
  match m with
  | Some a => f a
  | None => None
  end.

Notation "x <- m ;; k" := (bind m (fun x => k))
  (at level 61, m at next level, right associativity).

(** ** Output events *)

Inductive message : Type :=
| MsgUartInitialized
| MsgReceived (len : Z)
| MsgHandshakeOk
| MsgByte (i : Z) (b : Z)
| MsgLengthMismatch (declared received : Z)
| MsgValidPacket (payload_len : Z) (text : list Z)
| MsgCrcMismatch (got expected : Z).

Inductive event : Type :=
| UartWrite (bytes : list Z)
| LogI (m : message)
| LogW (m : message).

Definition trace : Type := list event.

(** All bytes written to the UART by a trace, in order. *)
Fixpoint written (t : trace) : list Z :=
  match t with
  | [] => []
  | UartWrite bs :: t' => bs ++ written t'
  | _ :: t' => written t'
  end.

(** Number of calls of [uart_write_bytes] in a trace. *)
Fixpoint write_calls (t : trace) : nat :=
  match t with
  | [] => O
  | UartWrite _ :: t' => S (write_calls t')
  | _ :: t' => write_calls t'
  end.

(** ** calc_crc8 *)

(** One pass of the body of the inner loop. *)
Definition crc_shift (crc : Z) : Z :=
  if negb (Z.land crc 0x80 =? 0)
  then to_uint8 (Z.lxor (Z.shiftl crc 1) 0x07)
  else to_uint8 (Z.shiftl crc 1).

(** The inner loop, [j] passes left. *)
Fixpoint crc_inner (j : nat) (crc : Z) : Z :=
  match j with
  | O => crc
  | S j' => crc_inner j' (crc_shift crc)
  end.

(** The body of the outer loop for the byte [b]. *)
Definition crc_byte (crc b : Z) : Z := crc_inner 8 (Z.lxor crc b).

(** The outer loop at index [i], [n] bytes left. *)
Fixpoint crc_outer (data : ptr) (n : nat) (i : Z) (crc : Z) : option Z :=
  match n with
  | O => Some crc
  | S n' =>
      b <- load data i ;;
      crc_outer data n' (i + 1) (crc_byte crc b)
  end.

Definition calc_crc8 (data : ptr) (len : Z) : option Z :=
  crc_outer data (Z.to_nat len) 0 0x00.

(** ** send_byte and the log *)

Definition send_byte (val : Z) : trace := [UartWrite [val]].

(** What the format [%.*s] prints of the bytes at [p]: at most [n] of them,
    up to the first zero byte. *)
Fixpoint print_str (p : ptr) (n : nat) (i : Z) : option (list Z) :=
  match n with
  | O => Some []
  | S n' =>
      b <- load p i ;;
      if b =? 0 then Some []
      else (rest <- print_str p n' (i + 1) ;; Some (b :: rest))
  end.

(** ** handle_packet *)

Definition handle_packet (data : ptr) (len : Z) : option trace :=
  d0 <- load data 0 ;;
  bad_frame <-
    (if negb (d0 =? HEADER) then Some true
     else (dl <- load data (len - 1) ;; Some (negb (dl =? END_)))) ;;
  if (bad_frame : bool) then Some (send_byte NACK)
  else
    total_len <- load data 1 ;;
    if negb (len =? total_len)
    then Some (LogW (MsgLengthMismatch total_len len) :: send_byte NACK)
    else
      let payload_len := to_uint8 (total_len - 4) in
      let payload := ptr_add data 2 in
      crc_received <- load data (2 + payload_len) ;;
      crc_calculated <- calc_crc8 payload payload_len ;;
      if crc_received =? crc_calculated
      then
        text <- print_str payload (Z.to_nat payload_len) 0 ;;
        Some (LogI (MsgValidPacket payload_len text) :: send_byte ACK)
      else
        Some (LogW (MsgCrcMismatch crc_received crc_calculated)
              :: send_byte NACK).

(** ** app_main *)

(** What one call of [uart_read_bytes] delivers: an error ([-1]) or the
    bytes received within the timeout (none on a timeout). *)
Inductive rx : Type :=
| RxError
| RxBytes (bs : list Z).

(** [uart_read_bytes(UART_PORT, buffer, BUF_SIZE, ...)]: the received bytes
    overwrite the front of the buffer, the rest of it keeps its content. *)
Definition uart_read_bytes (buffer : list Z) (r : rx) : list Z * Z :=
  match r with
  | RxError => (buffer, -1)
  | RxBytes bs => (bs ++ skipn (length bs) buffer, Z.of_nat (length bs))
  end.

(** The log lines [Byte[i] = ...] for [i] from [i] on, [n] bytes left. *)
Fixpoint log_bytes (p : ptr) (n : nat) (i : Z) : option trace :=
  match n with
  | O => Some []
  | S n' =>
      b <- load p i ;;
      rest <- log_bytes p n' (i + 1) ;;
      Some (LogI (MsgByte i b) :: rest)
  end.

Section Session.

(** The packet handler called by the loop. *)
Variable handler : ptr -> Z -> option trace.

(** One pass of the body of [while (1)]: the buffer after it and the
    events of the pass. *)
Definition loop_body (buffer : list Z) (r : rx) : option (list Z * trace) :=
  let '(buffer', len) := uart_read_bytes buffer r in
  let p := mkptr buffer' 0 in
  if 0 <? len then
    handshake <-
      (if len =? 1
       then (b0 <- load p 0 ;; Some (b0 =? HANDSHAKE_REQ))
       else Some false) ;;
    if (handshake : bool)
    then Some (buffer',
               LogI (MsgReceived len)
               :: send_byte HANDSHAKE_RESP ++ [LogI MsgHandshakeOk])
    else
      bytes <- log_bytes p (Z.to_nat len) 0 ;;
      t <- handler p len ;;
      Some (buffer', LogI (MsgReceived len) :: bytes ++ t)
  else Some (buffer', []).

(** The loop over the reads [rs]: the events of each pass, in order. *)
Fixpoint loop (buffer : list Z) (rs : list rx) : option (list trace) :=
  match rs with
  | [] => Some []
  | r :: rs' =>
      bt <- loop_body buffer r ;;
      ts <- loop (fst bt) rs' ;;
      Some (snd bt :: ts)
  end.

End Session.

Definition app_main_step : list Z -> rx -> option (list Z * trace) :=
  loop_body handle_packet.

(** [app_main] on a buffer of unknown initial content, for the reads [rs]. *)
Definition app_main (buffer : list Z) (rs : list rx) : option (list trace) :=
  ts <- loop handle_packet buffer rs ;;
  Some ([LogI MsgUartInitialized] :: ts).

(** ** The CRC of the specification

    The reference definition, written from the words of the specification:
    the accumulator starts at 0; each input byte is XORed into it, followed
    by 8 rounds; a round shifts left by one, dropping the bit that leaves
    the 8-bit accumulator, and XORs with 0x07 when the high bit was set. *)

Definition spec_round (acc : Z) : Z :=
  let shifted := (2 * acc) mod 2 ^ 8 in
  if Z.testbit acc 7 then Z.lxor shifted 0x07 else shifted.

Definition spec_crc8 (data : list Z) : Z :=
  fold_left (fun acc b => Nat.iter 8 spec_round (Z.lxor acc b)) data 0.

(** The bytes [a], [a+1], ..., [a+n-1] of a block. *)
Definition sub (data : list Z) (a n : nat) : list Z := firstn n (skipn a data).

(** The response of a pass: the only thing ever written is one byte. *)
Definition responds (t : trace) (b : Z) : Prop :=
  written t = [b] /\ write_calls t = 1%nat.

(** The bytes read through [p] at the indices [i], [i+1], ... are those of
    [l]. *)
Definition reads (p : ptr) (i : Z) (l : list Z) : Prop :=
  forall j, (j < length l)%nat -> load p (i + Z.of_nat j) = nth_error l j.

(** [calc_crc8] as a function of the bytes it reads. *)
Definition crc8 (l : list Z) : Z := fold_left crc_byte l 0x00.

(** [print_str] as a function of the bytes it reads. *)
Fixpoint c_str (l : list Z) : list Z :=
  match l with
  | [] => []
  | b :: l' => if b =? 0 then [] else b :: c_str l'
  end.

(** The packet a peer builds for the payload [p]. *)
Definition packet (p : list Z) : list Z :=
  [HEADER; 4 + Z.of_nat (length p)] ++ p ++ [crc8 p; END_].

(** The trace of an accepted packet and of a checksum failure. *)
Definition accepted (payload_len : Z) (payload : list Z) : trace :=
  LogI (MsgValidPacket payload_len (c_str payload)) :: send_byte ACK.

Definition crc_rejected (got expected : Z) : trace :=
  LogW (MsgCrcMismatch got expected) :: send_byte NACK.

(** Bit [k] of a byte inverted, and the same on the byte [i] of a block. *)
Definition flip_bit (b k : Z) : Z := Z.lxor b (Z.shiftl 1 k).

Fixpoint update (l : list Z) (i : nat) (f : Z -> Z) : list Z :=
  match l, i with
  | [], _ => []
  | x :: l', O => f x :: l'
  | x :: l', S i' => x :: update l' i' f
  end.

Definition flip (data : list Z) (i : nat) (k : Z) : list Z :=
  update data i (fun b => flip_bit b k).

(** The inverse of a round on an 8-bit accumulator. *)
Definition crc_unshift (crc : Z) : Z :=
  if Z.testbit crc 0
  then Z.lor (Z.shiftr (Z.lxor crc 0x07) 1) 0x80
  else Z.shiftr crc 1.

(** The integers [0], ..., [n-1]. *)
Definition upto (n : nat) : list Z := map Z.of_nat (seq 0 n).

(** A frame around the payload [p] with [c] in the place of the CRC. *)
Definition frame (p : list Z) (c : Z) : list Z :=
  [HEADER; 4 + Z.of_nat (length p)] ++ p ++ [c; END_].

(** Byte-wise XOR of two byte sequences. *)
Definition xor_bytes (l1 l2 : list Z) : list Z :=
  map (fun ab => Z.lxor (fst ab) (snd ab)) (combine l1 l2).

(** [log_bytes] as a function of the bytes it reads. *)
Fixpoint byte_log (l : list Z) (i : Z) : trace :=
  match l with
  | [] => []
  | b :: l' => LogI (MsgByte i b) :: byte_log l' (i + 1)
  end.

(** A read that the driver can deliver into the buffer. *)
Definition rx_fits (r : rx) : Prop :=
  match r with
  | RxError => True
  | RxBytes bs => Z.of_nat (length bs) <= BUF_SIZE
  end.

(** What a pass writes for a read: one byte for a read with data, nothing
    (and no log line) for a timeout or an error. *)
Definition answered (r : rx) (t : trace) : Prop :=
  match r with
  | RxBytes (_ :: _) => write_calls t = 1%nat /\ exists b, written t = [b]
  | _ => t = []
  end.

(** Parity of the eight bits of a byte: [true] when an odd number is set. *)
Definition parity8 (z : Z) : bool :=
  fold_left xorb (map (Z.testbit z) (upto 8)) false.

(** Parity of all the bits of a byte sequence. *)
Definition parity_bytes (l : list Z) : bool :=
  fold_left xorb (map parity8 l) false.

(** * Properties *)

(** ** Reads *)

Lemma load_nth (data : list Z) (o i : Z) :
  0 <= o + i ->
  load (mkptr data o) i = nth_error data (Z.to_nat (o + i)).
Proof.
  intros H. unfold load; simpl.
  destruct (Z.ltb_spec (o + i) 0); [lia | reflexivity].
Qed.

Lemma load_in_bounds (data : list Z) (o i : Z) :
  0 <= o + i < Z.of_nat (length data) ->
  exists b, load (mkptr data o) i = Some b.
Proof.
  intros H. rewrite load_nth by lia.
  destruct (nth_error data (Z.to_nat (o + i))) eqn:E; [eauto |].
  apply nth_error_None in E. lia.
Qed.

Lemma nth_error_sub (data : list Z) (a n j : nat) :
  (j < n)%nat -> nth_error (sub data a n) j = nth_error data (a + j).
Proof.
  intros H. unfold sub.
  rewrite nth_error_firstn.
  destruct (Nat.ltb_spec j n); [| lia].
  apply nth_error_skipn.
Qed.

Lemma length_sub (data : list Z) (a n : nat) :
  (a + n <= length data)%nat -> length (sub data a n) = n.
Proof.
  intros H. unfold sub. rewrite length_firstn, length_skipn. lia.
Qed.

Lemma reads_cons (p : ptr) (i b : Z) (l : list Z) :
  reads p i (b :: l) -> load p i = Some b /\ reads p (i + 1) l.
Proof.
  intros H. split.
  - specialize (H O). simpl in H. rewrite Z.add_0_r in H. apply H. lia.
  - intros j Hj. specialize (H (S j)). simpl in H.
    rewrite <- H by lia. f_equal. lia.
Qed.

Lemma reads_sub (data : list Z) (o i : Z) (n : nat) :
  0 <= o + i ->
  (Z.to_nat (o + i) + n <= length data)%nat ->
  reads (mkptr data o) i (sub data (Z.to_nat (o + i)) n).
Proof.
  intros H0 Hn j Hj. rewrite length_sub in Hj by assumption.
  rewrite nth_error_sub by assumption.
  rewrite load_nth by lia. f_equal. lia.
Qed.

(** ** The loops over a range of memory *)

Lemma crc_outer_reads (l : list Z) : forall (p : ptr) (i crc : Z),
  reads p i l ->
  crc_outer p (length l) i crc = Some (fold_left crc_byte l crc).
Proof.
  induction l as [| b l IH]; intros p i crc H; simpl.
  - reflexivity.
  - apply reads_cons in H. destruct H as [Hb Hl].
    rewrite Hb. simpl. apply IH. assumption.
Qed.

Lemma crc_outer_total (n : nat) : forall (p : ptr) (i crc : Z),
  0 <= ofs p + i ->
  ofs p + i + Z.of_nat n <= Z.of_nat (length (blk p)) ->
  exists c, crc_outer p n i crc = Some c.
Proof.
  induction n as [| n IH]; intros p i crc H0 Hn; simpl.
  - eauto.
  - destruct p as [data o]. simpl in *.
    destruct (load_in_bounds data o i) as [b Hb]; [lia |].
    rewrite Hb. simpl. apply (IH (mkptr data o)); simpl; lia.
Qed.

Lemma print_str_total (n : nat) : forall (p : ptr) (i : Z),
  0 <= ofs p + i ->
  ofs p + i + Z.of_nat n <= Z.of_nat (length (blk p)) ->
  exists t, print_str p n i = Some t.
Proof.
  induction n as [| n IH]; intros p i H0 Hn; simpl.
  - eauto.
  - destruct p as [data o]. simpl in *.
    destruct (load_in_bounds data o i) as [b Hb]; [lia |].
    rewrite Hb. simpl. destruct (b =? 0); [eauto |].
    destruct (IH (mkptr data o) (i + 1)) as [t Ht]; simpl; try lia.
    rewrite Ht. simpl. eauto.
Qed.

Lemma log_bytes_total (n : nat) : forall (p : ptr) (i : Z),
  0 <= ofs p + i ->
  ofs p + i + Z.of_nat n <= Z.of_nat (length (blk p)) ->
  exists t, log_bytes p n i = Some t /\ written t = [] /\ write_calls t = O.
Proof.
  induction n as [| n IH]; intros p i H0 Hn; simpl.
  - eauto.
  - destruct p as [data o]. simpl in *.
    destruct (load_in_bounds data o i) as [b Hb]; [lia |].
    rewrite Hb. simpl.
    destruct (IH (mkptr data o) (i + 1)) as (t & Ht & Hw & Hc); simpl; try lia.
    rewrite Ht. simpl. eauto.
Qed.

(** ** The code's round against the specification's *)

Lemma land_0x80_testbit (crc : Z) :
  negb (Z.land crc 0x80 =? 0) = Z.testbit crc 7.
Proof.
  change 0x80 with (2 ^ 7).
  destruct (Z.testbit crc 7) eqn:E.
  - destruct (Z.eqb_spec (Z.land crc (2 ^ 7)) 0) as [H0 | H0]; [| reflexivity].
    assert (Hb : Z.testbit (Z.land crc (2 ^ 7)) 7 = true).
    { rewrite Z.land_spec, E, Z.pow2_bits_true by lia. reflexivity. }
    rewrite H0, Z.bits_0 in Hb. discriminate.
  - destruct (Z.eqb_spec (Z.land crc (2 ^ 7)) 0) as [H0 | H0]; [reflexivity |].
    exfalso. apply H0. apply Z.bits_inj'. intros n Hn.
    rewrite Z.land_spec, Z.bits_0.
    destruct (Z.eq_dec n 7) as [-> | Hne].
    + rewrite E. reflexivity.
    + rewrite Z.pow2_bits_false by lia. apply andb_false_r.
Qed.

Lemma lxor_7_mod (z : Z) :
  (Z.lxor z 0x07) mod 2 ^ 8 = Z.lxor (z mod 2 ^ 8) 0x07.
Proof.
  apply Z.bits_inj'. intros n Hn.
  rewrite Z.lxor_spec.
  destruct (Z.ltb_spec n 8).
  - rewrite !Z.mod_pow2_bits_low by lia. rewrite Z.lxor_spec. reflexivity.
  - rewrite !Z.mod_pow2_bits_high by lia.
    change 0x07 with (Z.ones 3).
    rewrite Z.ones_spec_high by lia. reflexivity.
Qed.

Lemma crc_shift_spec_round (crc : Z) : crc_shift crc = spec_round crc.
Proof.
  unfold crc_shift, spec_round, to_uint8.
  rewrite land_0x80_testbit, Z.shiftl_mul_pow2 by lia.
  change (2 ^ 1) with 2. change 256 with (2 ^ 8).
  rewrite (Z.mul_comm crc 2), lxor_7_mod. reflexivity.
Qed.

Lemma crc_inner_iter (j : nat) : forall crc,
  crc_inner j crc = Nat.iter j spec_round crc.
Proof.
  induction j as [| j IH]; intros crc; [reflexivity |].
  cbn [crc_inner]. rewrite IH, crc_shift_spec_round.
  clear IH. induction j as [| j IH]; simpl; [reflexivity |].
  simpl in IH. rewrite IH. reflexivity.
Qed.

Lemma fold_crc_byte_spec (l : list Z) : forall crc,
  fold_left crc_byte l crc =
  fold_left (fun acc b => Nat.iter 8 spec_round (Z.lxor acc b)) l crc.
Proof.
  induction l as [| b l IH]; intros crc; [reflexivity |].
  cbn [fold_left]. rewrite IH. unfold crc_byte.
  rewrite crc_inner_iter. reflexivity.
Qed.

(** C2. [calc_crc8] over any range of memory holding the bytes [l] returns
    the reference bit-serial CRC-8/0x07 of [l] (accumulator from 0, XOR of
    each byte, then 8 rounds of shift-left with XOR 0x07 when the high bit
    was set, truncated to 8 bits); so the result depends on the bytes only,
    and over the empty range it is 0x00. *)
Theorem calc_crc8_refines_spec :
  (forall (pre l post : list Z),
     calc_crc8 (mkptr (pre ++ l ++ post) (Z.of_nat (length pre)))
               (Z.of_nat (length l))
     = Some (spec_crc8 l)) /\
  (forall (pre pre' l post post' : list Z),
     calc_crc8 (mkptr (pre ++ l ++ post) (Z.of_nat (length pre)))
               (Z.of_nat (length l))
     = calc_crc8 (mkptr (pre' ++ l ++ post') (Z.of_nat (length pre')))
                 (Z.of_nat (length l))) /\
  (forall p : ptr, calc_crc8 p 0 = Some 0x00) /\
  spec_crc8 [] = 0x00.
Proof.
  assert (H : forall pre l post,
             calc_crc8 (mkptr (pre ++ l ++ post) (Z.of_nat (length pre)))
                       (Z.of_nat (length l))
             = Some (spec_crc8 l)).
  { intros pre l post. unfold calc_crc8, spec_crc8.
    rewrite Nat2Z.id, <- fold_crc_byte_spec.
    apply crc_outer_reads. intros j Hj.
    rewrite load_nth by lia.
    replace (Z.to_nat (Z.of_nat (length pre) + (0 + Z.of_nat j)))
      with (length pre + j)%nat by lia.
    rewrite nth_error_app2 by lia.
    replace (length pre + j - length pre)%nat with j by lia.
    apply nth_error_app1. assumption. }
  repeat split.
  - exact H.
  - intros. rewrite !H. reflexivity.
Qed.

Lemma print_str_reads (l : list Z) : forall (p : ptr) (i : Z),
  reads p i l -> print_str p (length l) i = Some (c_str l).
Proof.
  induction l as [| b l IH]; intros p i H; simpl.
  - reflexivity.
  - apply reads_cons in H. destruct H as [Hb Hl].
    rewrite Hb. simpl. destruct (b =? 0); [reflexivity |].
    rewrite (IH p (i + 1) Hl). reflexivity.
Qed.

Lemma to_uint8_range (z : Z) : 0 <= to_uint8 z < 256.
Proof. unfold to_uint8. apply Z.mod_pos_bound. lia. Qed.

Lemma to_uint8_small (z : Z) : 0 <= z < 256 -> to_uint8 z = z.
Proof. unfold to_uint8. apply Z.mod_small. Qed.

(** ** handle_packet, stage by stage *)

Lemma handle_packet_bad_header (data : list Z) (len d0 : Z) :
  nth_error data 0 = Some d0 -> d0 <> HEADER ->
  handle_packet (mkptr data 0) len = Some (send_byte NACK).
Proof.
  intros H0 Hne. unfold handle_packet.
  rewrite load_nth by lia. simpl Z.to_nat. rewrite H0. simpl.
  destruct (Z.eqb_spec d0 HEADER); [contradiction | reflexivity].
Qed.

Lemma handle_packet_bad_end (data : list Z) (len dl : Z) :
  nth_error data 0 = Some HEADER ->
  0 < len -> nth_error data (Z.to_nat (len - 1)) = Some dl -> dl <> END_ ->
  handle_packet (mkptr data 0) len = Some (send_byte NACK).
Proof.
  intros H0 Hlen Hl Hne. unfold handle_packet.
  rewrite load_nth by lia. simpl Z.to_nat. rewrite H0. simpl.
  rewrite load_nth by lia. rewrite Z.add_0_l, Hl. simpl.
  destruct (Z.eqb_spec dl END_); [contradiction | reflexivity].
Qed.

Lemma handle_packet_bad_length (data : list Z) (len total_len : Z) :
  nth_error data 0 = Some HEADER ->
  0 < len -> nth_error data (Z.to_nat (len - 1)) = Some END_ ->
  nth_error data 1 = Some total_len -> len <> total_len ->
  handle_packet (mkptr data 0) len
  = Some (LogW (MsgLengthMismatch total_len len) :: send_byte NACK).
Proof.
  intros H0 Hlen Hl H1 Hne. unfold handle_packet.
  rewrite load_nth by lia. simpl Z.to_nat. rewrite H0. simpl.
  rewrite load_nth by lia. rewrite Z.add_0_l, Hl. simpl.
  rewrite load_nth by lia. simpl Z.to_nat. change (Pos.to_nat 1) with 1%nat.
  rewrite H1. simpl.
  destruct (Z.eqb_spec len total_len); [contradiction | reflexivity].
Qed.

(** Past the framing and length checks the answer is decided by the byte at
    [2 + payload_len] and the CRC of the [payload_len] bytes from index 2,
    with [payload_len] the 8-bit value of [len - 4]. *)
Lemma handle_packet_checksum (data : list Z) (len c : Z) :
  nth_error data 0 = Some HEADER ->
  0 < len -> nth_error data (Z.to_nat (len - 1)) = Some END_ ->
  nth_error data 1 = Some len ->
  nth_error data (Z.to_nat (2 + to_uint8 (len - 4))) = Some c ->
  let payload_len := to_uint8 (len - 4) in
  let payload := sub data 2 (Z.to_nat payload_len) in
  handle_packet (mkptr data 0) len
  = Some (if c =? crc8 payload then accepted payload_len payload
          else crc_rejected c (crc8 payload)).
Proof.
  intros H0 Hlen Hl H1 Hc plen payload.
  pose proof (to_uint8_range (len - 4)) as Hp. fold plen in Hp, Hc.
  assert (Hlt : (Z.to_nat (2 + plen) < length data)%nat).
  { apply nth_error_Some. congruence. }
  assert (Hlp : length payload = Z.to_nat plen).
  { apply length_sub. lia. }
  assert (Hr : reads (mkptr data 2) 0 payload).
  { apply (reads_sub data 2 0 (Z.to_nat plen)); simpl; lia. }
  unfold handle_packet.
  rewrite load_nth by lia. simpl Z.to_nat. rewrite H0. cbn [bind]. change (negb (HEADER =? HEADER)) with false. cbn iota.
  rewrite load_nth by lia. rewrite Z.add_0_l, Hl. cbn [bind]. change (negb (END_ =? END_)) with false. cbn iota.
  rewrite load_nth by lia. simpl Z.to_nat. change (Pos.to_nat 1) with 1%nat.
  rewrite H1. cbn [bind]. rewrite Z.eqb_refl. cbn [negb].
  fold plen. rewrite load_nth by lia. rewrite Z.add_0_l, Hc. cbn [bind].
  unfold calc_crc8, ptr_add. cbn [blk ofs]. rewrite Z.add_0_l.
  rewrite <- Hlp. rewrite (crc_outer_reads payload _ 0 0 Hr). cbn [bind].
  fold (crc8 payload).
  destruct (c =? crc8 payload); [| reflexivity].
  rewrite (print_str_reads payload _ 0 Hr). reflexivity.
Qed.

(** ** Spans at the front of the buffer *)

Lemma nth_error_span (sp rest : list Z) (j : nat) :
  (j < length sp)%nat -> nth_error (sp ++ rest) j = nth_error sp j.
Proof. intros H. apply nth_error_app1. assumption. Qed.

Lemma nth_error_hd (sp : list Z) :
  sp <> [] -> nth_error sp 0 = Some (hd 0 sp).
Proof. destruct sp; [contradiction | reflexivity]. Qed.

Lemma nth_error_last (sp : list Z) :
  sp <> [] -> nth_error sp (length sp - 1) = Some (last sp 0).
Proof.
  induction sp as [| a sp IH]; [contradiction |]. intros _.
  destruct sp as [| b sp]; [reflexivity |].
  change (last (a :: b :: sp) 0) with (last (b :: sp) 0).
  rewrite <- IH by discriminate. simpl. rewrite Nat.sub_0_r. reflexivity.
Qed.

Lemma span_nonempty (sp : list Z) : sp <> [] -> (0 < length sp)%nat.
Proof. destruct sp; [contradiction | simpl; lia]. Qed.

Lemma span_first (sp rest : list Z) :
  sp <> [] -> nth_error (sp ++ rest) 0 = Some (hd 0 sp).
Proof.
  intros H. pose proof (span_nonempty sp H).
  rewrite nth_error_span by lia. apply nth_error_hd. assumption.
Qed.

Lemma span_last (sp rest : list Z) :
  sp <> [] ->
  nth_error (sp ++ rest) (Z.to_nat (Z.of_nat (length sp) - 1))
  = Some (last sp 0).
Proof.
  intros H. pose proof (span_nonempty sp H).
  replace (Z.to_nat (Z.of_nat (length sp) - 1)) with (length sp - 1)%nat by lia.
  rewrite nth_error_span by lia. apply nth_error_last. assumption.
Qed.

(** C6. A non-empty span whose first byte is not 0xAA or whose last byte is
    not 0xBB is answered with NACK and nothing else, whatever its other
    bytes and whatever lies behind it in the buffer. *)
Theorem handle_packet_framing_check (sp rest : list Z) :
  sp <> [] ->
  hd 0 sp <> HEADER \/ last sp 0 <> END_ ->
  handle_packet (mkptr (sp ++ rest) 0) (Z.of_nat (length sp))
  = Some [UartWrite [NACK]].
Proof.
  intros Hne Hbad. pose proof (span_nonempty sp Hne) as Hlen.
  change [UartWrite [NACK]] with (send_byte NACK).
  destruct (Z.eq_dec (hd 0 sp) HEADER) as [Hh | Hh].
  - destruct Hbad as [Hbad | Hbad]; [contradiction |].
    apply handle_packet_bad_end with (dl := last sp 0).
    + rewrite span_first, Hh by assumption. reflexivity.
    + lia.
    + apply span_last. assumption.
    + assumption.
  - apply handle_packet_bad_header with (d0 := hd 0 sp).
    + apply span_first. assumption.
    + assumption.
Qed.

Lemma handle_packet_framing_check_witness :
  handle_packet (mkptr ([0x11; 0x06; 0x48; 0x69; 0xEB; 0xBB] ++ [0x00]) 0) 6
  = Some [UartWrite [NACK]].
Proof.
  apply (handle_packet_framing_check [0x11; 0x06; 0x48; 0x69; 0xEB; 0xBB]).
  - discriminate.
  - left. discriminate.
Defined.

(** C7. A span that passes the framing check and whose second byte, the
    declared length, differs from the number of bytes of the span is
    answered with NACK, after a warning that carries the declared and the
    received length. *)
Theorem handle_packet_length_check (sp rest : list Z) (declared : Z) :
  hd 0 sp = HEADER ->
  last sp 0 = END_ ->
  nth_error sp 1 = Some declared ->
  declared <> Z.of_nat (length sp) ->
  handle_packet (mkptr (sp ++ rest) 0) (Z.of_nat (length sp))
  = Some [LogW (MsgLengthMismatch declared (Z.of_nat (length sp)));
          UartWrite [NACK]].
Proof.
  intros Hh Hl Hd Hne.
  change [LogW (MsgLengthMismatch declared (Z.of_nat (length sp)));
          UartWrite [NACK]]
    with (LogW (MsgLengthMismatch declared (Z.of_nat (length sp)))
          :: send_byte NACK).
  assert (Hsp : sp <> []) by (intros ->; discriminate).
  pose proof (span_nonempty sp Hsp) as Hlen.
  apply handle_packet_bad_length.
  - rewrite span_first, Hh by assumption. reflexivity.
  - lia.
  - rewrite span_last, Hl by assumption. reflexivity.
  - rewrite nth_error_span; [assumption |].
    apply nth_error_Some. congruence.
  - congruence.
Qed.

Lemma handle_packet_length_check_witness :
  handle_packet (mkptr ([0xAA; 0x07; 0x48; 0x69; 0xEB; 0xBB] ++ []) 0) 6
  = Some [LogW (MsgLengthMismatch 7 6); UartWrite [NACK]].
Proof.
  apply (handle_packet_length_check [0xAA; 0x07; 0x48; 0x69; 0xEB; 0xBB] []);
    [reflexivity | reflexivity | reflexivity | discriminate].
Defined.

(** ** Round trip *)

Lemma length_packet (p : list Z) :
  length (packet p) = (length p + 4)%nat.
Proof.
  unfold packet. simpl. rewrite length_app. simpl. lia.
Qed.

Lemma sub_packet_payload (p rest : list Z) :
  sub (packet p ++ rest) 2 (length p) = p.
Proof.
  unfold sub, packet. simpl.
  rewrite <- app_assoc. rewrite firstn_app, firstn_all, Nat.sub_diag.
  simpl. apply app_nil_r.
Qed.

Lemma packet_unfold (p rest : list Z) :
  packet p ++ rest
  = HEADER :: 4 + Z.of_nat (length p) :: p ++ [crc8 p; END_] ++ rest.
Proof. unfold packet. simpl. rewrite <- app_assoc. reflexivity. Qed.

Lemma nth_error_skip2 (a b : Z) (l : list Z) (n : nat) :
  nth_error (a :: b :: l) (S (S n)) = nth_error l n.
Proof. reflexivity. Qed.

Lemma nth_error_packet_crc (p rest : list Z) :
  nth_error (packet p ++ rest) (2 + length p) = Some (crc8 p).
Proof.
  rewrite packet_unfold.
  change (2 + length p)%nat with (S (S (length p))).
  rewrite nth_error_skip2, nth_error_app2 by lia.
  rewrite Nat.sub_diag. reflexivity.
Qed.

Lemma nth_error_packet_end (p rest : list Z) :
  nth_error (packet p ++ rest) (3 + length p) = Some END_.
Proof.
  rewrite packet_unfold.
  change (3 + length p)%nat with (S (S (S (length p)))).
  rewrite nth_error_skip2, nth_error_app2 by lia.
  replace (S (length p) - length p)%nat with 1%nat by lia. reflexivity.
Qed.

(** C1. For a payload [p] whose packet has a declared-length byte equal to
    [4 + len p] (so [4 + len p] fits a byte), the packet
    [0xAA, 4 + len p, p..., crc8 p, 0xBB], wherever the buffer holds
    anything behind it, is logged as valid and answered with ACK. *)
Theorem handle_packet_round_trip (p rest : list Z) :
  4 + Z.of_nat (length p) <= 255 ->
  handle_packet (mkptr (packet p ++ rest) 0) (Z.of_nat (length (packet p)))
  = Some (accepted (Z.of_nat (length p)) p) /\
  responds (accepted (Z.of_nat (length p)) p) ACK.
Proof.
  intros Hfit. split; [| split; reflexivity].
  rewrite length_packet.
  assert (Hpl : to_uint8 (Z.of_nat (length p + 4) - 4) = Z.of_nat (length p)).
  { rewrite to_uint8_small by lia. lia. }
  pose proof (handle_packet_checksum (packet p ++ rest)
                (Z.of_nat (length p + 4)) (crc8 p)) as H.
  cbv zeta in H. rewrite Hpl, Nat2Z.id, sub_packet_payload, Z.eqb_refl in H.
  apply H.
  - rewrite packet_unfold. reflexivity.
  - lia.
  - replace (Z.to_nat (Z.of_nat (length p + 4) - 1))
      with (3 + length p)%nat by lia.
    apply nth_error_packet_end.
  - rewrite packet_unfold. cbn [nth_error]. f_equal. lia.
  - replace (Z.to_nat (2 + Z.of_nat (length p)))
      with (2 + length p)%nat by lia.
    apply nth_error_packet_crc.
Qed.

Lemma handle_packet_round_trip_witness :
  handle_packet (mkptr ([0xAA; 0x06; 0x48; 0x69; 0xEB; 0xBB] ++ [0x7F]) 0) 6
  = Some [LogI (MsgValidPacket 2 [0x48; 0x69]); UartWrite [ACK]].
Proof.
  apply (handle_packet_round_trip [0x48; 0x69] [0x7F]). simpl. lia.
Defined.

(** ** What an ACK implies *)

Lemma load_Some_nth (data : list Z) (i b : Z) :
  load (mkptr data 0) i = Some b ->
  0 <= i /\ nth_error data (Z.to_nat i) = Some b.
Proof.
  unfold load. cbn [ofs blk]. rewrite Z.add_0_l.
  destruct (Z.ltb_spec i 0); [discriminate |]. auto.
Qed.

Lemma written_NACK_not_ACK (t : trace) :
  written t = [NACK] -> written t = [ACK] -> False.
Proof. intros H1 H2. rewrite H1 in H2. discriminate. Qed.

Lemma handle_packet_ack_inv (data : list Z) (len : Z) (t : trace) :
  handle_packet (mkptr data 0) len = Some t ->
  written t = [ACK] ->
  let payload_len := to_uint8 (len - 4) in
  let payload := sub data 2 (Z.to_nat payload_len) in
  nth_error data 0 = Some HEADER /\
  0 < len /\
  nth_error data (Z.to_nat (len - 1)) = Some END_ /\
  nth_error data 1 = Some len /\
  nth_error data (Z.to_nat (2 + payload_len)) = Some (crc8 payload) /\
  t = accepted payload_len payload.
Proof.
  intros H Hack plen payload. pose proof H as H'.
  unfold handle_packet in H.
  destruct (load (mkptr data 0) 0) as [d0 |] eqn:E0; [| discriminate].
  cbn [bind] in H.
  destruct (Z.eqb_spec d0 HEADER) as [-> | Hd0]; cbn [negb] in H; cbn iota in H.
  2: { cbn [bind] in H. injection H as <-. discriminate. }
  destruct (load (mkptr data 0) (len - 1)) as [dl |] eqn:El; [| discriminate].
  cbn [bind] in H.
  destruct (Z.eqb_spec dl END_) as [-> | Hdl]; cbn [negb] in H; cbn iota in H.
  2: { injection H as <-. discriminate. }
  destruct (load (mkptr data 0) 1) as [total_len |] eqn:E1; [| discriminate].
  cbn [bind] in H.
  destruct (Z.eqb_spec len total_len) as [<- | Hlen]; cbn [negb] in H;
    cbn iota in H.
  2: { injection H as <-. discriminate. }
  fold plen in H.
  destruct (load (mkptr data 0) (2 + plen)) as [c |] eqn:Ec; [| discriminate].
  clear H.
  apply load_Some_nth in E0, El, E1, Ec.
  destruct E0 as [_ E0], El as [Hl El], E1 as [_ E1], Ec as [_ Ec].
  simpl Z.to_nat in E0. change (Z.to_nat 1) with 1%nat in E1.
  assert (Hpos : 0 < len) by lia.
  rewrite (handle_packet_checksum data len c E0 Hpos El E1 Ec) in H'.
  fold plen payload in H'.
  destruct (Z.eqb_spec c (crc8 payload)) as [-> | Hc].
  - injection H' as <-. auto 10.
  - injection H' as <-. discriminate.
Qed.

Lemma is_uint8_range (z : Z) : is_uint8 z = true -> 0 <= z < 256.
Proof. unfold is_uint8. lia. Qed.

Lemma bytes_ok_nth (l : list Z) (j : nat) (b : Z) :
  bytes_ok l -> nth_error l j = Some b -> 0 <= b < 256.
Proof.
  unfold bytes_ok. rewrite forallb_forall. intros H Hj.
  apply is_uint8_range, H. eapply nth_error_In; eassumption.
Qed.

Lemma sub_span (sp rest : list Z) (a n : nat) :
  (a + n <= length sp)%nat -> sub (sp ++ rest) a n = sub sp a n.
Proof.
  intros H. unfold sub. rewrite skipn_app, firstn_app, length_skipn.
  replace (n - (length sp - a))%nat with O by lia.
  simpl. apply app_nil_r.
Qed.

(** A span of more than 255 bytes is answered with NACK: its declared
    length is one byte and so differs from its length.  Hence a span that
    is answered with ACK has at most 255 bytes, and from four bytes on
    what it holds between the length byte and the CRC byte, the payload,
    at most 251. *)
Lemma handle_packet_size_ceiling (sp rest : list Z) :
  bytes_ok sp ->
  (255 < Z.of_nat (length sp) ->
   exists t,
     handle_packet (mkptr (sp ++ rest) 0) (Z.of_nat (length sp)) = Some t /\
     responds t NACK) /\
  (forall t,
     handle_packet (mkptr (sp ++ rest) 0) (Z.of_nat (length sp)) = Some t ->
     responds t ACK ->
     Z.of_nat (length sp) <= 255 /\
     (4 <= Z.of_nat (length sp) ->
      t = accepted (Z.of_nat (length sp) - 4) (sub sp 2 (length sp - 4)) /\
      Z.of_nat (length (sub sp 2 (length sp - 4))) <= 251)).
Proof.
  intros Hok.
  assert (Hbig : 255 < Z.of_nat (length sp) ->
            exists t,
              handle_packet (mkptr (sp ++ rest) 0) (Z.of_nat (length sp))
              = Some t /\ responds t NACK).
  { intros Hlen.
    assert (Hsp : sp <> []) by (intros ->; simpl in Hlen; lia).
    pose proof (span_first sp rest Hsp) as E0.
    pose proof (span_last sp rest Hsp) as El.
    destruct (Z.eq_dec (hd 0 sp) HEADER) as [Hh | Hh];
      [destruct (Z.eq_dec (last sp 0) END_) as [Hl | Hl] |].
    - destruct (nth_error sp 1) as [d |] eqn:Ed.
      2: { apply nth_error_None in Ed. lia. }
      pose proof (bytes_ok_nth sp 1 d Hok Ed) as Hd.
      rewrite Hh in E0. rewrite Hl in El.
      assert (E1 : nth_error (sp ++ rest) 1 = Some d)
        by (rewrite nth_error_span by lia; assumption).
      assert (Hpos : 0 < Z.of_nat (length sp)) by lia.
      rewrite (handle_packet_bad_length _ _ d E0 Hpos El E1) by lia.
      eexists. split; [reflexivity | split; reflexivity].
    - rewrite Hh in E0.
      assert (Hpos : 0 < Z.of_nat (length sp)) by lia.
      rewrite (handle_packet_bad_end _ _ _ E0 Hpos El Hl).
      eexists. split; [reflexivity | split; reflexivity].
    - rewrite (handle_packet_bad_header _ _ _ E0 Hh).
      eexists. split; [reflexivity | split; reflexivity]. }
  split; [exact Hbig |].
  intros t Ht [Hack _].
  assert (Hle : Z.of_nat (length sp) <= 255).
  { destruct (Z.le_gt_cases (Z.of_nat (length sp)) 255) as [| Hgt];
      [assumption |].
    destruct (Hbig ltac:(lia)) as (t' & Ht' & Hn & _).
    rewrite Ht in Ht'. injection Ht' as <-.
    destruct (written_NACK_not_ACK t Hn Hack). }
  split; [exact Hle |]. intros H4.
  destruct (handle_packet_ack_inv _ _ t Ht Hack) as (_ & _ & _ & _ & _ & ->).
  rewrite to_uint8_small by lia.
  replace (Z.to_nat (Z.of_nat (length sp) - 4)) with (length sp - 4)%nat by lia.
  rewrite sub_span by lia. split; [reflexivity |].
  rewrite length_sub by lia. lia.
Qed.

Lemma handle_packet_size_ceiling_witness :
  exists t,
    handle_packet (mkptr ((HEADER :: repeat 0 254 ++ [END_]) ++ []) 0)
                  (Z.of_nat (length (HEADER :: repeat 0 254 ++ [END_])))
    = Some t /\ responds t NACK.
Proof.
  apply (handle_packet_size_ceiling (HEADER :: repeat 0 254 ++ [END_]) []).
  - reflexivity.
  - vm_compute. reflexivity.
Defined.

(** ** The loop of app_main *)

(** In a block of at least 258 bytes [handle_packet] reads inside the
    block, and it writes one byte, ACK or NACK. *)
Lemma handle_packet_total (data : list Z) (len : Z) :
  0 < len <= Z.of_nat (length data) ->
  258 <= Z.of_nat (length data) ->
  exists t,
    handle_packet (mkptr data 0) len = Some t /\
    write_calls t = 1%nat /\
    (written t = [ACK] \/ written t = [NACK]).
Proof.
  intros Hlen Hbig. unfold handle_packet.
  destruct (load_in_bounds data 0 0) as [d0 ->]; [lia |]. cbn [bind].
  destruct (negb (d0 =? HEADER)); cbn [bind].
  { eexists. split; [reflexivity | split; [reflexivity | right; reflexivity]]. }
  destruct (load_in_bounds data 0 (len - 1)) as [dl ->]; [lia |]. cbn [bind].
  destruct (negb (dl =? END_)).
  { eexists. split; [reflexivity | split; [reflexivity | right; reflexivity]]. }
  destruct (load_in_bounds data 0 1) as [total_len ->]; [lia |]. cbn [bind].
  destruct (negb (len =? total_len)).
  { eexists. split; [reflexivity | split; [reflexivity | right; reflexivity]]. }
  pose proof (to_uint8_range (total_len - 4)) as Hp.
  set (plen := to_uint8 (total_len - 4)) in *.
  destruct (load_in_bounds data 0 (2 + plen)) as [c ->]; [lia |]. cbn [bind].
  destruct (crc_outer_total (Z.to_nat plen) (ptr_add (mkptr data 0) 2) 0 0)
    as [crc Hcrc]; [cbn [ptr_add ofs blk]; lia | cbn [ptr_add ofs blk]; lia |].
  unfold calc_crc8. rewrite Hcrc. cbn [bind].
  destruct (c =? crc).
  - destruct (print_str_total (Z.to_nat plen) (ptr_add (mkptr data 0) 2) 0)
      as [text ->];
      [cbn [ptr_add ofs blk]; lia | cbn [ptr_add ofs blk]; lia |]. cbn [bind].
    eexists. split; [reflexivity | split; [reflexivity | left; reflexivity]].
  - eexists. split; [reflexivity | split; [reflexivity | right; reflexivity]].
Qed.

Lemma written_app (t1 t2 : trace) : written (t1 ++ t2) = written t1 ++ written t2.
Proof.
  induction t1 as [| e t1 IH]; [reflexivity |].
  destruct e; simpl; rewrite IH; [apply app_assoc | reflexivity | reflexivity].
Qed.

Lemma write_calls_app (t1 t2 : trace) :
  write_calls (t1 ++ t2) = (write_calls t1 + write_calls t2)%nat.
Proof.
  induction t1 as [| e t1 IH]; [reflexivity |].
  destruct e; simpl; rewrite IH; reflexivity.
Qed.

Lemma length_received (buffer bs : list Z) :
  (length bs <= length buffer)%nat ->
  length (bs ++ skipn (length bs) buffer) = length buffer.
Proof. intros H. rewrite length_app, length_skipn. lia. Qed.

(** A single byte is never a frame: it cannot be both markers. *)
Lemma handle_packet_single (b : Z) (rest : list Z) :
  handle_packet (mkptr (b :: rest) 0) 1 = Some (send_byte NACK).
Proof.
  unfold handle_packet. cbn [load ofs blk Z.add Z.sub Z.ltb Z.compare
    Z.to_nat nth_error bind Z.opp Z.pos_sub].
  destruct (Z.eqb_spec b HEADER) as [-> | Hb]; reflexivity.
Qed.

(** C3. A read of the single byte 0xB1 is answered with 0x55, and the
    packet handler is not called: the pass is the same for every handler.
    A read of any other single byte goes to [handle_packet] and is answered
    with NACK. *)
Theorem app_main_dispatch :
  (forall (handler : ptr -> Z -> option trace) (buffer : list Z),
     loop_body handler buffer (RxBytes [HANDSHAKE_REQ])
     = Some (HANDSHAKE_REQ :: skipn 1 buffer,
             [LogI (MsgReceived 1); UartWrite [HANDSHAKE_RESP];
              LogI MsgHandshakeOk])) /\
  (forall (handler : ptr -> Z -> option trace) (buffer : list Z) (b : Z),
     b <> HANDSHAKE_REQ ->
     loop_body handler buffer (RxBytes [b])
     = (t <- handler (mkptr (b :: skipn 1 buffer) 0) 1 ;;
        Some (b :: skipn 1 buffer,
              LogI (MsgReceived 1) :: LogI (MsgByte 0 b) :: t))) /\
  (forall (buffer : list Z) (b : Z),
     b <> HANDSHAKE_REQ ->
     app_main_step buffer (RxBytes [b])
     = Some (b :: skipn 1 buffer,
             [LogI (MsgReceived 1); LogI (MsgByte 0 b); UartWrite [NACK]])).
Proof.
  assert (H2 : forall handler buffer b,
             b <> HANDSHAKE_REQ ->
             loop_body handler buffer (RxBytes [b])
             = (t <- handler (mkptr (b :: skipn 1 buffer) 0) 1 ;;
                Some (b :: skipn 1 buffer,
                      LogI (MsgReceived 1) :: LogI (MsgByte 0 b) :: t))).
  { intros handler buffer b Hb. unfold loop_body, uart_read_bytes.
    cbn [length app Z.of_nat Pos.of_succ_nat Z.ltb Z.compare Z.eqb Pos.eqb].
    cbn [load ofs blk Z.add Z.ltb Z.compare Z.to_nat nth_error bind].
    destruct (Z.eqb_spec b HANDSHAKE_REQ) as [| _]; [contradiction |].
    cbn [Pos.to_nat Pos.iter_op Nat.add log_bytes].
    cbn [load ofs blk Z.add Z.ltb Z.compare Z.to_nat nth_error bind app].
    reflexivity. }
  split; [| split].
  - intros handler buffer. reflexivity.
  - exact H2.
  - intros buffer b Hb. unfold app_main_step.
    rewrite H2 by assumption. rewrite handle_packet_single. reflexivity.
Qed.

Lemma loop_body_packet_path (handler : ptr -> Z -> option trace)
    (buffer bs : list Z) :
  bs <> [] -> bs <> [HANDSHAKE_REQ] ->
  (length bs <= length buffer)%nat ->
  let buffer' := bs ++ skipn (length bs) buffer in
  exists bytes,
    written bytes = [] /\ write_calls bytes = O /\
    loop_body handler buffer (RxBytes bs)
    = (t <- handler (mkptr buffer' 0) (Z.of_nat (length bs)) ;;
       Some (buffer', LogI (MsgReceived (Z.of_nat (length bs))) :: bytes ++ t)).
Proof.
  intros Hne Hhs Hlen buffer'.
  pose proof (span_nonempty bs Hne) as Hpos.
  pose proof (length_received buffer bs Hlen) as Hlb. fold buffer' in Hlb.
  destruct (log_bytes_total (length bs) (mkptr buffer' 0) 0)
    as (bytes & Hbytes & Hw & Hc); [cbn; lia | cbn; lia |].
  exists bytes. split; [assumption | split; [assumption |]].
  unfold loop_body, uart_read_bytes. fold buffer'.
  destruct (Z.ltb_spec 0 (Z.of_nat (length bs))); [| lia].
  assert (Hhand :
    (if Z.of_nat (length bs) =? 1
     then b0 <- load (mkptr buffer' 0) 0 ;; Some (b0 =? HANDSHAKE_REQ)
     else Some false) = Some false).
  { destruct (Z.eqb_spec (Z.of_nat (length bs)) 1) as [H1 | H1];
      [| reflexivity].
    destruct bs as [| b [| b' bs]]; try (simpl in H1; lia).
    unfold buffer'. cbn.
    destruct (Z.eqb_spec b HANDSHAKE_REQ) as [-> | ]; [| reflexivity].
    contradiction Hhs. reflexivity. }
  rewrite Hhand. cbn [bind]. rewrite Nat2Z.id, Hbytes. reflexivity.
Qed.

(** C9. Every non-empty read into the 1024-byte buffer is answered by one
    call of [uart_write_bytes] that writes one byte: 0x55 when the read is
    the single byte 0xB1, and otherwise the ACK or NACK of
    [handle_packet]. *)
Theorem app_main_one_response (buffer bs : list Z) :
  Z.of_nat (length buffer) = BUF_SIZE ->
  bs <> [] ->
  Z.of_nat (length bs) <= BUF_SIZE ->
  exists buffer' t,
    app_main_step buffer (RxBytes bs) = Some (buffer', t) /\
    write_calls t = 1%nat /\
    ((bs = [HANDSHAKE_REQ] /\ written t = [HANDSHAKE_RESP]) \/
     (bs <> [HANDSHAKE_REQ] /\
      exists t',
        handle_packet (mkptr buffer' 0) (Z.of_nat (length bs)) = Some t' /\
        written t = written t' /\
        (written t' = [ACK] \/ written t' = [NACK]))).
Proof.
  intros Hbuf Hne Hlen. unfold BUF_SIZE in *.
  destruct (list_eq_dec Z.eq_dec bs [HANDSHAKE_REQ]) as [-> | Hhs].
  - do 2 eexists. split; [reflexivity |]. split; [reflexivity |].
    left. split; reflexivity.
  - pose proof (span_nonempty bs Hne) as Hpos.
    destruct (loop_body_packet_path handle_packet buffer bs Hne Hhs)
      as (bytes & Hw & Hc & Hbody); [lia |].
    cbv zeta in Hbody.
    set (buffer' := bs ++ skipn (length bs) buffer) in *.
    assert (Hlb : length buffer' = length buffer)
      by (apply length_received; lia).
    destruct (handle_packet_total buffer' (Z.of_nat (length bs)))
      as (t' & Ht' & Hc' & Hw'); [lia | lia |].
    unfold app_main_step. rewrite Hbody, Ht'. cbn [bind].
    do 2 eexists. split; [reflexivity |]. split.
    + cbn [write_calls]. rewrite write_calls_app. lia.
    + right. split; [assumption |]. exists t'.
      split; [assumption |]. split; [| assumption].
      cbn [written]. rewrite written_app, Hw. reflexivity.
Qed.

Lemma app_main_one_response_witness :
  exists buffer' t,
    app_main_step (repeat 0 1024)
                  (RxBytes [0xAA; 0x06; 0x48; 0x69; 0xEB; 0xBB])
    = Some (buffer', t) /\
    write_calls t = 1%nat /\
    (([0xAA; 0x06; 0x48; 0x69; 0xEB; 0xBB] = [HANDSHAKE_REQ] /\
      written t = [HANDSHAKE_RESP]) \/
     ([0xAA; 0x06; 0x48; 0x69; 0xEB; 0xBB] <> [HANDSHAKE_REQ] /\
      exists t',
        handle_packet (mkptr buffer' 0) 6 = Some t' /\
        written t = written t' /\
        (written t' = [ACK] \/ written t' = [NACK]))).
Proof.
  apply (app_main_one_response (repeat 0 1024)
           [0xAA; 0x06; 0x48; 0x69; 0xEB; 0xBB]).
  - reflexivity.
  - discriminate.
  - simpl. unfold BUF_SIZE. lia.
Defined.

(** ** The CRC separates accumulators *)

Lemma In_upto (n : nat) (z : Z) : 0 <= z < Z.of_nat n -> In z (upto n).
Proof.
  intros H. unfold upto. apply in_map_iff. exists (Z.to_nat z).
  split; [lia |]. apply in_seq. lia.
Qed.

Lemma crc_unshift_shift (crc : Z) :
  0 <= crc < 256 -> crc_unshift (crc_shift crc) = crc.
Proof.
  intros H.
  assert (Hall : forallb (fun c => crc_unshift (crc_shift c) =? c) (upto 256)
                 = true) by (vm_compute; reflexivity).
  rewrite forallb_forall in Hall.
  apply Z.eqb_eq, Hall, In_upto. simpl. lia.
Qed.

Lemma crc_shift_range (crc : Z) : 0 <= crc_shift crc < 256.
Proof. unfold crc_shift. destruct (negb _); apply to_uint8_range. Qed.

Lemma crc_shift_inj (a b : Z) :
  0 <= a < 256 -> 0 <= b < 256 -> crc_shift a = crc_shift b -> a = b.
Proof.
  intros Ha Hb H.
  rewrite <- (crc_unshift_shift a Ha), <- (crc_unshift_shift b Hb), H.
  reflexivity.
Qed.

Lemma crc_inner_range (j : nat) : forall crc,
  0 <= crc < 256 -> 0 <= crc_inner j crc < 256.
Proof.
  induction j as [| j IH]; intros crc H; simpl; [assumption |].
  apply IH, crc_shift_range.
Qed.

Lemma crc_inner_inj (j : nat) : forall a b,
  0 <= a < 256 -> 0 <= b < 256 -> crc_inner j a = crc_inner j b -> a = b.
Proof.
  induction j as [| j IH]; intros a b Ha Hb H; simpl in H; [assumption |].
  apply crc_shift_inj; try assumption.
  apply IH; try apply crc_shift_range. assumption.
Qed.

Lemma testbit_uint8_high (a n : Z) :
  0 <= a < 256 -> 8 <= n -> Z.testbit a n = false.
Proof.
  intros Ha Hn. rewrite <- (Z.mod_small a (2 ^ 8)) by (simpl; lia).
  apply Z.mod_pow2_bits_high. lia.
Qed.

Lemma lxor_uint8 (a b : Z) :
  0 <= a < 256 -> 0 <= b < 256 -> 0 <= Z.lxor a b < 256.
Proof.
  intros Ha Hb.
  assert (H : Z.lxor a b mod 2 ^ 8 = Z.lxor a b).
  { apply Z.bits_inj'. intros n Hn.
    destruct (Z.ltb_spec n 8).
    - apply Z.mod_pow2_bits_low. lia.
    - rewrite Z.mod_pow2_bits_high by lia.
      rewrite Z.lxor_spec, !testbit_uint8_high by lia. reflexivity. }
  rewrite <- H. apply Z.mod_pos_bound. simpl. lia.
Qed.

Lemma lxor_inj_r (c a b : Z) : Z.lxor c a = Z.lxor c b -> a = b.
Proof.
  intros H.
  rewrite <- (Z.lxor_0_l a), <- (Z.lxor_0_l b), <- (Z.lxor_nilpotent c).
  rewrite !Z.lxor_assoc, H. reflexivity.
Qed.

Lemma lxor_inj_l (b c d : Z) : Z.lxor c b = Z.lxor d b -> c = d.
Proof. rewrite !(Z.lxor_comm _ b). apply lxor_inj_r. Qed.

Lemma crc_byte_range (crc b : Z) :
  0 <= crc < 256 -> 0 <= b < 256 -> 0 <= crc_byte crc b < 256.
Proof. intros. apply crc_inner_range, lxor_uint8; assumption. Qed.

Lemma crc_byte_inj_byte (crc a b : Z) :
  0 <= crc < 256 -> 0 <= a < 256 -> 0 <= b < 256 ->
  crc_byte crc a = crc_byte crc b -> a = b.
Proof.
  intros Hc Ha Hb H. apply (lxor_inj_r crc).
  apply (crc_inner_inj 8); try apply lxor_uint8; assumption.
Qed.

Lemma crc_byte_inj_crc (c d b : Z) :
  0 <= c < 256 -> 0 <= d < 256 -> 0 <= b < 256 ->
  crc_byte c b = crc_byte d b -> c = d.
Proof.
  intros Hc Hd Hb H. apply (lxor_inj_l b).
  apply (crc_inner_inj 8); try apply lxor_uint8; assumption.
Qed.

Lemma bytes_ok_cons (b : Z) (l : list Z) :
  bytes_ok (b :: l) <-> 0 <= b < 256 /\ bytes_ok l.
Proof.
  unfold bytes_ok. simpl. rewrite andb_true_iff. split.
  - intros [Hb Hl]. split; [apply is_uint8_range |]; assumption.
  - intros [Hb Hl]. split; [unfold is_uint8; lia | assumption].
Qed.

Lemma fold_crc_inj (l : list Z) : forall c d,
  bytes_ok l -> 0 <= c < 256 -> 0 <= d < 256 ->
  fold_left crc_byte l c = fold_left crc_byte l d -> c = d.
Proof.
  induction l as [| b l IH]; intros c d Hl Hc Hd H; [assumption |].
  apply bytes_ok_cons in Hl. destruct Hl as [Hb Hl]. simpl in H.
  apply IH in H; try apply crc_byte_range; try assumption.
  apply (crc_byte_inj_crc c d b); assumption.
Qed.

(** Two byte sequences that differ in exactly one place have different
    CRCs, from any accumulator. *)
Lemma fold_crc_differ (l : list Z) : forall (l' : list Z) (m : nat) (b b' c : Z),
  bytes_ok l -> bytes_ok l' -> 0 <= c < 256 ->
  (forall j, j <> m -> nth_error l j = nth_error l' j) ->
  nth_error l m = Some b -> nth_error l' m = Some b' -> b <> b' ->
  fold_left crc_byte l c <> fold_left crc_byte l' c.
Proof.
  induction l as [| a l IH]; intros l' m b b' c Hl Hl' Hc Hsame Hb Hb' Hne.
  - destruct m; discriminate.
  - destruct l' as [| a' l']; [destruct m; discriminate |].
    apply bytes_ok_cons in Hl, Hl'.
    destruct Hl as [Ha Hl], Hl' as [Ha' Hl'].
    destruct m as [| m]; simpl in Hb, Hb'.
    + injection Hb as ->. injection Hb' as ->.
      assert (l = l') as <-.
      { apply nth_error_ext. intros n. apply (Hsame (S n)). discriminate. }
      simpl. intros H. apply fold_crc_inj in H;
        try apply crc_byte_range; try assumption.
      apply Hne. apply (crc_byte_inj_byte c); assumption.
    + assert (a = a') as <-.
      { specialize (Hsame O). simpl in Hsame.
        assert (Some a = Some a') by (apply Hsame; discriminate).
        congruence. }
      simpl. apply (IH l' m b b'); try assumption.
      * apply crc_byte_range; assumption.
      * intros j Hj. apply (Hsame (S j)). congruence.
Qed.

(** ** Inverting one bit of the buffer *)

Lemma nth_error_update_eq (f : Z -> Z) (l : list Z) : forall (i : nat) (b : Z),
  nth_error l i = Some b -> nth_error (update l i f) i = Some (f b).
Proof.
  induction l as [| x l IH]; intros [| i] b H; simpl in *; try discriminate.
  - congruence.
  - apply IH. assumption.
Qed.

Lemma nth_error_update_neq (f : Z -> Z) (l : list Z) : forall (i j : nat),
  j <> i -> nth_error (update l i f) j = nth_error l j.
Proof.
  induction l as [| x l IH]; intros [| i] [| j] H; simpl; try reflexivity.
  - contradiction.
  - apply IH. congruence.
Qed.

Lemma bytes_ok_iff_nth (l : list Z) :
  bytes_ok l <-> forall j b, nth_error l j = Some b -> 0 <= b < 256.
Proof.
  split.
  - intros H j b. apply bytes_ok_nth. assumption.
  - intros H. unfold bytes_ok. apply forallb_forall. intros b Hb.
    apply In_nth_error in Hb. destruct Hb as [j Hj].
    specialize (H j b Hj). unfold is_uint8. lia.
Qed.

Lemma bytes_ok_update (f : Z -> Z) (l : list Z) (i : nat) :
  (forall b, 0 <= b < 256 -> 0 <= f b < 256) ->
  bytes_ok l -> bytes_ok (update l i f).
Proof.
  intros Hf Hl. apply bytes_ok_iff_nth. intros j b Hj.
  destruct (Nat.eq_dec j i) as [-> | Hne].
  - destruct (nth_error l i) as [x |] eqn:Ex.
    + rewrite (nth_error_update_eq f l i x Ex) in Hj. injection Hj as <-.
      apply Hf. eapply bytes_ok_nth; eassumption.
    + clear Hf Hl. revert i Ex Hj.
      induction l as [| y l IH]; intros [| i] Ex Hj; simpl in *;
        try discriminate.
      eapply IH; eassumption.
  - rewrite nth_error_update_neq in Hj by assumption.
    eapply bytes_ok_nth; eassumption.
Qed.

Lemma bytes_ok_sub (data : list Z) (a n : nat) :
  bytes_ok data -> bytes_ok (sub data a n).
Proof.
  intros H. apply bytes_ok_iff_nth. intros j b Hj.
  assert (Hlt : (j < n)%nat).
  { assert (Hs : nth_error (sub data a n) j <> None) by congruence.
    apply nth_error_Some in Hs. unfold sub in Hs.
    rewrite length_firstn in Hs. lia. }
  rewrite nth_error_sub in Hj by assumption.
  eapply bytes_ok_nth; eassumption.
Qed.

Lemma shiftl_1_range (k : Z) : 0 <= k < 8 -> 0 < Z.shiftl 1 k < 256.
Proof.
  intros H. rewrite Z.shiftl_1_l.
  assert (Hk : k = 0 \/ k = 1 \/ k = 2 \/ k = 3 \/ k = 4 \/ k = 5 \/ k = 6 \/
               k = 7) by lia.
  repeat (destruct Hk as [-> | Hk]; [simpl; lia |]). subst. simpl. lia.
Qed.

Lemma flip_bit_range (b k : Z) :
  0 <= b < 256 -> 0 <= k < 8 -> 0 <= flip_bit b k < 256.
Proof.
  intros Hb Hk. pose proof (shiftl_1_range k Hk).
  apply lxor_uint8; lia.
Qed.

Lemma flip_bit_neq (b k : Z) : 0 <= k < 8 -> flip_bit b k <> b.
Proof.
  intros Hk H. pose proof (shiftl_1_range k Hk) as Hs.
  unfold flip_bit in H. rewrite <- (Z.lxor_0_r b) in H at 2.
  apply lxor_inj_r in H. lia.
Qed.

(** C8. When a buffer content is answered with ACK, the same content with
    one bit inverted in one of the bytes the CRC is computed over (the
    [payload_len] bytes from index 2) is answered with NACK. *)
Theorem handle_packet_detects_bit_flip
    (data : list Z) (len : Z) (t : trace) (i : nat) (k : Z) :
  bytes_ok data ->
  handle_packet (mkptr data 0) len = Some t ->
  responds t ACK ->
  2 <= Z.of_nat i < 2 + to_uint8 (len - 4) ->
  0 <= k < 8 ->
  exists t',
    handle_packet (mkptr (flip data i k) 0) len = Some t' /\
    responds t' NACK.
Proof.
  intros Hok Ht [Hack _] Hi Hk.
  destruct (handle_packet_ack_inv data len t Ht Hack)
    as (E0 & Hpos & El & E1 & Ec & _).
  pose proof (to_uint8_range (len - 4)) as Hp.
  set (plen := to_uint8 (len - 4)) in *.
  set (payload := sub data 2 (Z.to_nat plen)) in *.
  assert (Hlen : (Z.to_nat (2 + plen) < length data)%nat).
  { apply nth_error_Some. congruence. }
  destruct (nth_error data i) as [b |] eqn:Eb.
  2: { apply nth_error_None in Eb. lia. }
  pose proof (bytes_ok_nth data i b Hok Eb) as Hb.
  pose proof (nth_error_update_eq (fun x => flip_bit x k) data i b Eb) as Eb'.
  fold (flip data i k) in Eb'.
  assert (Hsame : forall j, j <> i ->
            nth_error (flip data i k) j = nth_error data j).
  { intros j Hj. apply nth_error_update_neq. assumption. }
  assert (E0' : nth_error (flip data i k) 0 = Some HEADER).
  { rewrite Hsame by lia. assumption. }
  destruct (Nat.eq_dec (Z.to_nat (len - 1)) i) as [Hend | Hend].
  - assert (b = END_) as -> by congruence.
    assert (El' : nth_error (flip data i k) (Z.to_nat (len - 1))
                  = Some (flip_bit END_ k)) by (rewrite Hend; exact Eb').
    rewrite (handle_packet_bad_end _ len _ E0' Hpos El'
               (flip_bit_neq END_ k Hk)).
    eexists. split; [reflexivity | split; reflexivity].
  - assert (El' : nth_error (flip data i k) (Z.to_nat (len - 1)) = Some END_).
    { rewrite Hsame by assumption. assumption. }
    assert (E1' : nth_error (flip data i k) 1 = Some len).
    { rewrite Hsame by lia. assumption. }
    assert (Ec' : nth_error (flip data i k) (Z.to_nat (2 + plen))
                  = Some (crc8 payload)).
    { rewrite Hsame by lia. assumption. }
    rewrite (handle_packet_checksum _ len _ E0' Hpos El' E1' Ec').
    fold plen. set (payload' := sub (flip data i k) 2 (Z.to_nat plen)).
    assert (Hdiff : crc8 payload <> crc8 payload').
    { apply (fold_crc_differ payload payload' (i - 2) b (flip_bit b k)).
      - apply bytes_ok_sub. assumption.
      - apply bytes_ok_sub, bytes_ok_update; [| assumption].
        intros x Hx. apply flip_bit_range; assumption.
      - lia.
      - intros j Hj. unfold payload, payload'.
        destruct (Nat.ltb_spec j (Z.to_nat plen)) as [Hlt | Hge].
        + rewrite !nth_error_sub by assumption. symmetry. apply Hsame. lia.
        + transitivity (@None Z); [| symmetry]; apply nth_error_None;
            unfold sub; rewrite length_firstn; lia.
      - unfold payload. rewrite nth_error_sub by lia.
        replace (2 + (i - 2))%nat with i by lia. assumption.
      - unfold payload'. rewrite nth_error_sub by lia.
        replace (2 + (i - 2))%nat with i by lia. assumption.
      - intros H. symmetry in H. revert H. apply flip_bit_neq. assumption. }
    destruct (Z.eqb_spec (crc8 payload) (crc8 payload')) as [H | _];
      [contradiction |].
    eexists. split; [reflexivity | split; reflexivity].
Qed.

Lemma handle_packet_detects_bit_flip_witness :
  exists t',
    handle_packet
      (mkptr (flip [0xAA; 0x06; 0x48; 0x69; 0xEB; 0xBB; 0x00] 3 5) 0) 6
    = Some t' /\ responds t' NACK.
Proof.
  apply (handle_packet_detects_bit_flip
           [0xAA; 0x06; 0x48; 0x69; 0xEB; 0xBB; 0x00] 6
           [LogI (MsgValidPacket 2 [0x48; 0x69]); UartWrite [ACK]] 3 5).
  - reflexivity.
  - reflexivity.
  - split; reflexivity.
  - unfold to_uint8. simpl. lia.
  - lia.
Defined.

(** ** Spans shorter than a frame *)

(** A span of one, two or three bytes other than [0xAA, 0x03, 0xBB] is
    answered with NACK, and deciding so reads the span only: the answer is
    the same when the block holds nothing but the span. *)
Lemma handle_packet_short_span_nack (sp rest : list Z) :
  sp <> [] -> (length sp < 4)%nat -> sp <> [HEADER; 3; END_] ->
  exists t,
    handle_packet (mkptr sp 0) (Z.of_nat (length sp)) = Some t /\
    handle_packet (mkptr (sp ++ rest) 0) (Z.of_nat (length sp)) = Some t /\
    responds t NACK.
Proof.
  intros Hne Hlen Hsp.
  destruct sp as [| a [| b [| c [| d sp]]]];
    [contradiction | | | | simpl in Hlen; lia].
  - exists (send_byte NACK). cbn [length Z.of_nat Pos.of_succ_nat app].
    rewrite !handle_packet_single. repeat split.
  - destruct (Z.eq_dec a HEADER) as [-> | Ha];
      [destruct (Z.eq_dec b END_) as [-> | Hb] |].
    + exists (LogW (MsgLengthMismatch END_ 2) :: send_byte NACK).
      repeat split.
    + exists (send_byte NACK).
      rewrite !(handle_packet_bad_end _ _ b) by (try reflexivity; assumption).
      repeat split.
    + exists (send_byte NACK).
      rewrite !(handle_packet_bad_header _ _ a) by (try reflexivity; assumption).
      repeat split.
  - destruct (Z.eq_dec a HEADER) as [-> | Ha];
      [destruct (Z.eq_dec c END_) as [-> | Hc];
       [destruct (Z.eq_dec b 3) as [-> | Hb] | ] |].
    + contradiction Hsp. reflexivity.
    + exists (LogW (MsgLengthMismatch b 3) :: send_byte NACK).
      rewrite !(handle_packet_bad_length _ _ b)
        by (try reflexivity; simpl; congruence).
      repeat split.
    + exists (send_byte NACK).
      rewrite !(handle_packet_bad_end _ _ c) by (try reflexivity; assumption).
      repeat split.
    + exists (send_byte NACK).
      rewrite !(handle_packet_bad_header _ _ a) by (try reflexivity; assumption).
      repeat split.
Qed.

(** C4. The three-byte span [0xAA, 0x03, 0xBB] is not rejected as too
    short: [handle_packet] goes on to read index 257, which faults in a
    block that holds only the span; in the 1024-byte buffer the read
    returns what an earlier read of 258 bytes left there, and the span is
    answered with ACK. *)
Theorem handle_packet_short_span_accepted :
  handle_packet (mkptr [0xAA; 0x03; 0xBB] 0) 3 = None /\
  option_map (map written)
    (app_main (repeat 0 1024)
       [RxBytes (repeat 0 257 ++ [0x28]); RxBytes [0xAA; 0x03; 0xBB]])
  = Some [[]; [NACK]; [ACK]].
Proof. split; vm_compute; reflexivity. Qed.

(** C5. A span [0xAA, 0x03, 0xBB], whose declared length is 3, is not
    answered before the payload length is computed: the 8-bit value of
    [3 - 4] is 255, and the answer is decided by the byte at index 257 and
    the CRC of the 255 bytes from index 2, most of them behind the span. *)
Theorem handle_packet_declared_length_underflow (rest : list Z) :
  (255 <= length rest)%nat ->
  let data := [HEADER; 3; END_] ++ rest in
  to_uint8 (3 - 4) = 255 /\
  handle_packet (mkptr data 0) 3
  = Some (if nth 257 data 0 =? crc8 (sub data 2 255)
          then accepted 255 (sub data 2 255)
          else crc_rejected (nth 257 data 0) (crc8 (sub data 2 255))).
Proof.
  intros Hlen data. split; [reflexivity |].
  assert (Ec : nth_error data (Z.to_nat (2 + to_uint8 (3 - 4)))
               = Some (nth 257 data 0)).
  { change (Z.to_nat (2 + to_uint8 (3 - 4))) with 257%nat.
    apply nth_error_nth'. unfold data. rewrite length_app. simpl. lia. }
  apply (handle_packet_checksum data 3 _ eq_refl ltac:(lia) eq_refl eq_refl Ec).
Qed.

Lemma handle_packet_declared_length_underflow_witness :
  to_uint8 (3 - 4) = 255 /\
  handle_packet
    (mkptr ([HEADER; 3; END_] ++ repeat 0 254 ++ [0x28]) 0) 3
  = Some (accepted 255 (END_ :: repeat 0 254)).
Proof.
  apply (handle_packet_declared_length_underflow (repeat 0 254 ++ [0x28])).
  vm_compute. lia.
Defined.

(** * Further properties of the code *)

(** ** calc_crc8: bounds and value *)

Lemma load_Some_in_block (p : ptr) (i b : Z) :
  load p i = Some b -> 0 <= ofs p + i < Z.of_nat (length (blk p)).
Proof.
  unfold load. destruct (Z.ltb_spec (ofs p + i) 0); [discriminate |].
  intros E.
  assert (Hn : nth_error (blk p) (Z.to_nat (ofs p + i)) <> None) by congruence.
  apply nth_error_Some in Hn. lia.
Qed.

Lemma crc_outer_Some_in_block (n : nat) : forall (p : ptr) (i crc c : Z),
  crc_outer p (S n) i crc = Some c ->
  0 <= ofs p + i /\ ofs p + i + Z.of_nat (S n) <= Z.of_nat (length (blk p)).
Proof.
  induction n as [| n IH]; intros p i crc c H; cbn [crc_outer] in H;
    destruct (load p i) as [b |] eqn:Eb; try discriminate;
    cbn [bind] in H; apply load_Some_in_block in Eb.
  - lia.
  - apply IH in H. lia.
Qed.

Lemma crc_byte_uint8 (crc b : Z) : 0 <= crc_byte crc b < 256.
Proof.
  unfold crc_byte. change 8%nat with (7 + 1)%nat.
  generalize (Z.lxor crc b). generalize 7%nat.
  intros j. induction j as [| j IH]; intros x.
  - apply crc_shift_range.
  - cbn [Nat.add crc_inner]. apply IH.
Qed.

Lemma crc_outer_uint8 (n : nat) : forall (p : ptr) (i crc c : Z),
  0 <= crc < 256 -> crc_outer p n i crc = Some c -> 0 <= c < 256.
Proof.
  induction n as [| n IH]; intros p i crc c Hc H; cbn [crc_outer] in H.
  - injection H as <-. assumption.
  - destruct (load p i) as [b |]; [| discriminate]. cbn [bind] in H.
    apply IH in H; [assumption | apply crc_byte_uint8].
Qed.

Lemma calc_crc8_crc8 (pre l post : list Z) :
  calc_crc8 (mkptr (pre ++ l ++ post) (Z.of_nat (length pre)))
            (Z.of_nat (length l))
  = Some (crc8 l).
Proof.
  unfold calc_crc8, crc8. rewrite Nat2Z.id.
  apply crc_outer_reads. intros j Hj.
  rewrite load_nth by lia.
  replace (Z.to_nat (Z.of_nat (length pre) + (0 + Z.of_nat j)))
    with (length pre + j)%nat by lia.
  rewrite nth_error_app2 by lia.
  replace (length pre + j - length pre)%nat with j by lia.
  apply nth_error_app1. assumption.
Qed.

(** X1. [calc_crc8] over [len > 0] bytes returns a value exactly when the
    [len] bytes from the pointer lie inside the block (it faults on a read
    before or behind it), and the value it returns is a byte, whatever the
    block holds. *)
Theorem calc_crc8_in_block (data : list Z) (o len : Z) :
  0 < len ->
  ((exists c, calc_crc8 (mkptr data o) len = Some c) <->
   0 <= o /\ o + len <= Z.of_nat (length data)) /\
  (forall c, calc_crc8 (mkptr data o) len = Some c -> 0 <= c < 256).
Proof.
  intros Hlen. unfold calc_crc8. split; [split |].
  - intros [c Hc].
    destruct (Z.to_nat len) as [| n] eqn:En; [lia |].
    apply crc_outer_Some_in_block in Hc. cbn [ofs blk] in Hc. lia.
  - intros [Ho Hin].
    apply crc_outer_total; cbn [ofs blk]; lia.
  - intros c Hc. apply crc_outer_uint8 in Hc; [assumption | lia].
Qed.

Lemma calc_crc8_in_block_witness :
  ((exists c, calc_crc8 (mkptr [0x48; 0x69] 1) 2 = Some c) <->
   0 <= 1 /\ 1 + 2 <= Z.of_nat (length [0x48; 0x69])) /\
  (forall c, calc_crc8 (mkptr [0x48; 0x69] 1) 2 = Some c -> 0 <= c < 256).
Proof. apply (calc_crc8_in_block [0x48; 0x69] 1 2). lia. Defined.

(** ** calc_crc8: algebra of the checksum *)

Lemma crc8_app (l1 l2 : list Z) :
  crc8 (l1 ++ l2) = fold_left crc_byte l2 (crc8 l1).
Proof. unfold crc8. apply fold_left_app. Qed.

(** X2. The checksum of a byte sequence followed by its own checksum is
    zero: [calc_crc8] over the payload and the CRC byte behind it returns
    0x00. *)
Theorem calc_crc8_residue_zero (pre p post : list Z) :
  calc_crc8 (mkptr (pre ++ (p ++ [crc8 p]) ++ post) (Z.of_nat (length pre)))
            (Z.of_nat (length p) + 1)
  = Some 0x00.
Proof.
  replace (Z.of_nat (length p) + 1) with (Z.of_nat (length (p ++ [crc8 p])))
    by (rewrite length_app; simpl; lia).
  rewrite calc_crc8_crc8, crc8_app. cbn [fold_left].
  unfold crc_byte. rewrite Z.lxor_nilpotent. reflexivity.
Qed.

Lemma fold_crc_zeros (n : nat) : fold_left crc_byte (repeat 0 n) 0 = 0.
Proof. induction n as [| n IH]; [reflexivity | exact IH]. Qed.

(** X3. Zero bytes in front of the data do not change the checksum: the
    accumulator starts at 0x00 and stays there until the first non-zero
    byte, so [calc_crc8] cannot tell [l] from [l] behind any number of
    0x00 bytes. *)
Theorem calc_crc8_leading_zeros (pre l post : list Z) (n : nat) :
  calc_crc8 (mkptr (pre ++ (repeat 0 n ++ l) ++ post) (Z.of_nat (length pre)))
            (Z.of_nat (n + length l))
  = calc_crc8 (mkptr (pre ++ l ++ post) (Z.of_nat (length pre)))
              (Z.of_nat (length l)).
Proof.
  replace (n + length l)%nat with (length (repeat 0 n ++ l))
    by (rewrite length_app, repeat_length; reflexivity).
  rewrite !calc_crc8_crc8, crc8_app.
  unfold crc8 at 1. rewrite fold_crc_zeros. reflexivity.
Qed.

Lemma crc_shift_lxor (a b : Z) :
  0 <= a < 256 -> 0 <= b < 256 ->
  crc_shift (Z.lxor a b) = Z.lxor (crc_shift a) (crc_shift b).
Proof.
  intros Ha Hb.
  assert (Hall :
    forallb (fun x =>
      forallb (fun y =>
        crc_shift (Z.lxor x y) =? Z.lxor (crc_shift x) (crc_shift y))
        (upto 256)) (upto 256) = true) by (vm_compute; reflexivity).
  rewrite forallb_forall in Hall.
  specialize (Hall a (In_upto 256 a ltac:(simpl; lia))).
  rewrite forallb_forall in Hall.
  apply Z.eqb_eq, Hall, In_upto. simpl. lia.
Qed.

Lemma crc_inner_lxor (j : nat) : forall a b,
  0 <= a < 256 -> 0 <= b < 256 ->
  crc_inner j (Z.lxor a b) = Z.lxor (crc_inner j a) (crc_inner j b).
Proof.
  induction j as [| j IH]; intros a b Ha Hb; [reflexivity |].
  cbn [crc_inner]. rewrite crc_shift_lxor by assumption.
  apply IH; apply crc_shift_range.
Qed.

Lemma lxor_swap (a b c d : Z) :
  Z.lxor (Z.lxor a b) (Z.lxor c d) = Z.lxor (Z.lxor a c) (Z.lxor b d).
Proof.
  rewrite !Z.lxor_assoc. f_equal.
  rewrite <- !Z.lxor_assoc. f_equal. apply Z.lxor_comm.
Qed.

Lemma fold_crc_lxor (l1 : list Z) : forall (l2 : list Z) (c d : Z),
  bytes_ok l1 -> bytes_ok l2 -> length l1 = length l2 ->
  0 <= c < 256 -> 0 <= d < 256 ->
  fold_left crc_byte (xor_bytes l1 l2) (Z.lxor c d)
  = Z.lxor (fold_left crc_byte l1 c) (fold_left crc_byte l2 d).
Proof.
  induction l1 as [| a l1 IH]; intros [| b l2] c d H1 H2 Hlen Hc Hd;
    try discriminate; [reflexivity |].
  apply bytes_ok_cons in H1, H2. destruct H1 as [Ha H1], H2 as [Hb H2].
  injection Hlen as Hlen.
  change (xor_bytes (a :: l1) (b :: l2)) with (Z.lxor a b :: xor_bytes l1 l2).
  cbn [fold_left].
  assert (Hstep : crc_byte (Z.lxor c d) (Z.lxor a b)
                  = Z.lxor (crc_byte c a) (crc_byte d b)).
  { unfold crc_byte. rewrite lxor_swap.
    apply crc_inner_lxor; apply lxor_uint8; assumption. }
  rewrite Hstep. apply IH; try assumption; apply crc_byte_uint8.
Qed.

(** X4. The checksum is linear over XOR: for two byte sequences of the same
    length, the checksum of their byte-wise XOR is the XOR of their
    checksums. *)
Theorem crc8_xor_linear (l1 l2 : list Z) :
  bytes_ok l1 -> bytes_ok l2 -> length l1 = length l2 ->
  crc8 (xor_bytes l1 l2) = Z.lxor (crc8 l1) (crc8 l2) /\
  calc_crc8 (mkptr (xor_bytes l1 l2) 0) (Z.of_nat (length l1))
  = Some (Z.lxor (crc8 l1) (crc8 l2)).
Proof.
  intros H1 H2 Hlen.
  assert (H : crc8 (xor_bytes l1 l2) = Z.lxor (crc8 l1) (crc8 l2)).
  { unfold crc8. change 0x00 with (Z.lxor 0 0) at 1.
    apply fold_crc_lxor; try assumption; lia. }
  split; [exact H |].
  assert (Hl : length (xor_bytes l1 l2) = length l1).
  { unfold xor_bytes. rewrite length_map, length_combine. lia. }
  rewrite <- H, <- Hl.
  pose proof (calc_crc8_crc8 [] (xor_bytes l1 l2) []) as Hc.
  cbn [app length Z.of_nat] in Hc. rewrite app_nil_r in Hc. exact Hc.
Qed.

Lemma crc8_xor_linear_witness :
  crc8 (xor_bytes [0x48; 0x69] [0x01; 0xFF]) = Z.lxor (crc8 [0x48; 0x69]) (crc8 [0x01; 0xFF]) /\
  calc_crc8 (mkptr (xor_bytes [0x48; 0x69] [0x01; 0xFF]) 0) 2
  = Some (Z.lxor (crc8 [0x48; 0x69]) (crc8 [0x01; 0xFF])).
Proof.
  apply (crc8_xor_linear [0x48; 0x69] [0x01; 0xFF]); reflexivity.
Defined.

(** ** handle_packet on frames *)

Lemma packet_frame (p : list Z) : packet p = frame p (crc8 p).
Proof. reflexivity. Qed.

Lemma frame_unfold (p : list Z) (c : Z) (rest : list Z) :
  frame p c ++ rest
  = HEADER :: 4 + Z.of_nat (length p) :: p ++ [c; END_] ++ rest.
Proof. unfold frame. simpl. rewrite <- app_assoc. reflexivity. Qed.

Lemma length_frame (p : list Z) (c : Z) :
  length (frame p c) = (length p + 4)%nat.
Proof. unfold frame. simpl. rewrite length_app. simpl. lia. Qed.

Lemma sub_frame_payload (p : list Z) (c : Z) (rest : list Z) :
  sub (frame p c ++ rest) 2 (length p) = p.
Proof.
  rewrite frame_unfold. unfold sub. cbn [skipn].
  rewrite firstn_app, firstn_all, Nat.sub_diag. simpl. apply app_nil_r.
Qed.

(** A frame of at most 255 bytes reaches the checksum comparison. *)
Lemma handle_packet_frame (p : list Z) (c : Z) (rest : list Z) :
  4 + Z.of_nat (length p) <= 255 ->
  handle_packet (mkptr (frame p c ++ rest) 0) (Z.of_nat (length (frame p c)))
  = Some (if c =? crc8 p then accepted (Z.of_nat (length p)) p
          else crc_rejected c (crc8 p)).
Proof.
  intros Hfit. rewrite length_frame.
  assert (Hpl : to_uint8 (Z.of_nat (length p + 4) - 4) = Z.of_nat (length p)).
  { rewrite to_uint8_small by lia. lia. }
  pose proof (handle_packet_checksum (frame p c ++ rest)
                (Z.of_nat (length p + 4)) c) as H.
  cbv zeta in H. rewrite Hpl, Nat2Z.id, sub_frame_payload in H.
  apply H.
  - rewrite frame_unfold. reflexivity.
  - lia.
  - replace (Z.to_nat (Z.of_nat (length p + 4) - 1))
      with (S (S (S (length p)))) by lia.
    rewrite frame_unfold, nth_error_skip2, nth_error_app2 by lia.
    replace (S (length p) - length p)%nat with 1%nat by lia. reflexivity.
  - rewrite frame_unfold. cbn [nth_error]. f_equal. lia.
  - replace (Z.to_nat (2 + Z.of_nat (length p)))
      with (S (S (length p))) by lia.
    rewrite frame_unfold, nth_error_skip2, nth_error_app2 by lia.
    rewrite Nat.sub_diag. reflexivity.
Qed.

(** X7. A well-framed span with the right declared length whose CRC byte is
    not the checksum of its payload is answered with NACK, after a warning
    that carries the received and the computed checksum. *)
Theorem handle_packet_crc_mismatch (p : list Z) (c : Z) (rest : list Z) :
  4 + Z.of_nat (length p) <= 255 ->
  c <> crc8 p ->
  handle_packet (mkptr (frame p c ++ rest) 0) (Z.of_nat (length (frame p c)))
  = Some [LogW (MsgCrcMismatch c (crc8 p)); UartWrite [NACK]].
Proof.
  intros Hfit Hc. rewrite handle_packet_frame by assumption.
  destruct (Z.eqb_spec c (crc8 p)); [contradiction | reflexivity].
Qed.

Lemma handle_packet_crc_mismatch_witness :
  handle_packet (mkptr ([0xAA; 0x06; 0x48; 0x69; 0xEA; 0xBB] ++ [0x00]) 0) 6
  = Some [LogW (MsgCrcMismatch 0xEA 0xEB); UartWrite [NACK]].
Proof.
  apply (handle_packet_crc_mismatch [0x48; 0x69] 0xEA [0x00]).
  - simpl. lia.
  - intros H. vm_compute in H. discriminate H.
Defined.

(** A span of at least four bytes that is answered with ACK is a frame
    around the bytes between its length byte and its CRC byte. *)
Lemma span_is_frame (sp : list Z) :
  (4 <= length sp)%nat ->
  nth_error sp 0 = Some HEADER ->
  nth_error sp 1 = Some (Z.of_nat (length sp)) ->
  nth_error sp (length sp - 1) = Some END_ ->
  sp = frame (sub sp 2 (length sp - 4)) (nth (length sp - 2) sp 0).
Proof.
  intros Hlen E0 E1 El.
  destruct sp as [| a [| b sp']]; try (simpl in Hlen; lia).
  cbn [nth_error] in E0, E1. injection E0 as ->.
  set (n := length (HEADER :: b :: sp')) in *.
  assert (Hn : n = S (S (length sp'))) by reflexivity.
  unfold sub. cbn [skipn].
  pose proof (firstn_skipn (n - 4) sp') as Hsplit.
  set (p := firstn (n - 4) sp') in *. set (tl := skipn (n - 4) sp') in *.
  assert (Hp : length p = (n - 4)%nat)
    by (unfold p; rewrite length_firstn; lia).
  assert (Htl : length tl = 2%nat)
    by (unfold tl; rewrite length_skipn; lia).
  destruct tl as [| c [| e [| x tl]]]; try discriminate.
  unfold frame. rewrite Hp. cbn [app].
  assert (Hb : b = 4 + Z.of_nat (n - 4)).
  { injection E1 as ->. lia. }
  assert (Hc : nth (n - 2) (HEADER :: b :: sp') 0 = c).
  { replace (n - 2)%nat with (S (S (length p))) by lia. cbn [nth].
    rewrite <- Hsplit, app_nth2, Nat.sub_diag by lia. reflexivity. }
  assert (He : e = END_).
  { replace (n - 1)%nat with (S (S (S (length p)))) in El by lia.
    rewrite nth_error_skip2, <- Hsplit, nth_error_app2 in El by lia.
    replace (S (length p) - length p)%nat with 1%nat in El by lia.
    simpl in El. congruence. }
  rewrite Hc, <- Hb, <- Hsplit, He. reflexivity.
Qed.

(** X6. For a span of 4 to 255 bytes the answer is ACK exactly when the
    span is the packet of some payload: header, declared length
    [4 + len p], payload, checksum of the payload, end marker. *)
Theorem handle_packet_ack_iff_packet (sp rest : list Z) :
  4 <= Z.of_nat (length sp) <= 255 ->
  (exists t,
     handle_packet (mkptr (sp ++ rest) 0) (Z.of_nat (length sp)) = Some t /\
     responds t ACK)
  <-> exists p, sp = packet p.
Proof.
  intros Hlen. split.
  - intros (t & Ht & Hack & _).
    destruct (handle_packet_ack_inv _ _ t Ht Hack)
      as (E0 & _ & El & E1 & Ec & _).
    rewrite to_uint8_small in Ec by lia.
    rewrite nth_error_span in E0, E1 by lia.
    replace (Z.to_nat (Z.of_nat (length sp) - 1)) with (length sp - 1)%nat
      in El by lia.
    rewrite nth_error_span in El by lia.
    replace (Z.to_nat (2 + (Z.of_nat (length sp) - 4)))
      with (length sp - 2)%nat in Ec by lia.
    replace (Z.to_nat (Z.of_nat (length sp) - 4))
      with (length sp - 4)%nat in Ec by lia.
    rewrite nth_error_span, sub_span in Ec by lia.
    exists (sub sp 2 (length sp - 4)).
    rewrite packet_frame.
    rewrite <- (nth_error_nth _ _ 0 Ec).
    apply span_is_frame; try assumption; lia.
  - intros [p ->]. rewrite packet_frame in *.
    rewrite length_frame in Hlen.
    rewrite handle_packet_frame by lia. rewrite Z.eqb_refl.
    eexists. split; [reflexivity | split; reflexivity].
Qed.

Lemma handle_packet_ack_iff_packet_witness :
  (exists t,
     handle_packet (mkptr ([0xAA; 0x06; 0x48; 0x69; 0xEB; 0xBB] ++ []) 0) 6
     = Some t /\ responds t ACK)
  <-> exists p, [0xAA; 0x06; 0x48; 0x69; 0xEB; 0xBB] = packet p.
Proof.
  apply (handle_packet_ack_iff_packet [0xAA; 0x06; 0x48; 0x69; 0xEB; 0xBB] []).
  simpl. lia.
Defined.

(** ** handle_packet reads the span only *)

(** From four bytes on, every read of [handle_packet] falls inside the
    span, so what lies behind the span has no part in the answer. *)
Lemma handle_packet_long_span (sp : list Z) :
  (4 <= length sp)%nat ->
  exists t, forall rest,
    handle_packet (mkptr (sp ++ rest) 0) (Z.of_nat (length sp)) = Some t.
Proof.
  intros Hlen.
  assert (Hsp : sp <> []) by (intros ->; simpl in Hlen; lia).
  assert (Hpos : 0 < Z.of_nat (length sp)) by lia.
  destruct (Z.eq_dec (hd 0 sp) HEADER) as [Hh | Hh];
    [destruct (Z.eq_dec (last sp 0) END_) as [Hl | Hl] |].
  - destruct (nth_error sp 1) as [d |] eqn:Ed.
    2: { apply nth_error_None in Ed. lia. }
    destruct (Z.eq_dec (Z.of_nat (length sp)) d) as [Hd | Hd].
    + pose proof (to_uint8_range (Z.of_nat (length sp) - 4)) as Hp.
      assert (Hple : to_uint8 (Z.of_nat (length sp) - 4)
                     <= Z.of_nat (length sp) - 4).
      { unfold to_uint8. apply Z.mod_le; lia. }
      set (plen := to_uint8 (Z.of_nat (length sp) - 4)) in *.
      destruct (nth_error sp (Z.to_nat (2 + plen))) as [c |] eqn:Ec.
      2: { apply nth_error_None in Ec. lia. }
      exists (if c =? crc8 (sub sp 2 (Z.to_nat plen))
              then accepted plen (sub sp 2 (Z.to_nat plen))
              else crc_rejected c (crc8 (sub sp 2 (Z.to_nat plen)))).
      intros rest.
      rewrite <- (sub_span sp rest 2 (Z.to_nat plen)) by lia.
      apply (handle_packet_checksum (sp ++ rest) (Z.of_nat (length sp)) c).
      * rewrite span_first, Hh by assumption. reflexivity.
      * assumption.
      * rewrite span_last, Hl by assumption. reflexivity.
      * rewrite nth_error_span by lia. congruence.
      * fold plen. rewrite nth_error_span by lia. assumption.
    + exists (LogW (MsgLengthMismatch d (Z.of_nat (length sp)))
              :: send_byte NACK).
      intros rest. apply handle_packet_bad_length; try assumption.
      * rewrite span_first, Hh by assumption. reflexivity.
      * rewrite span_last, Hl by assumption. reflexivity.
      * rewrite nth_error_span by lia. assumption.
  - exists (send_byte NACK). intros rest.
    apply handle_packet_bad_end with (dl := last sp 0); try assumption.
    + rewrite span_first, Hh by assumption. reflexivity.
    + apply span_last. assumption.
  - exists (send_byte NACK). intros rest.
    apply handle_packet_bad_header with (d0 := hd 0 sp); try assumption.
    apply span_first. assumption.
Qed.

Lemma handle_packet_span_only (sp : list Z) :
  sp <> [] -> sp <> [HEADER; 3; END_] ->
  exists t, forall rest,
    handle_packet (mkptr (sp ++ rest) 0) (Z.of_nat (length sp)) = Some t.
Proof.
  intros Hne Hbad.
  destruct (Nat.lt_ge_cases (length sp) 4) as [Hlt | Hge].
  - destruct (handle_packet_short_span_nack sp [] Hne Hlt Hbad)
      as (t & Ht & _).
    exists t. intros rest.
    destruct (handle_packet_short_span_nack sp rest Hne Hlt Hbad)
      as (t' & Ht' & Hrest & _).
    congruence.
  - apply handle_packet_long_span. assumption.
Qed.

(** X5. Except for the span [0xAA, 0x03, 0xBB], [handle_packet] reads
    nothing outside the received span: it returns an answer when the block
    holds the span alone, and the same answer whatever the block holds
    behind the span. *)
Theorem handle_packet_reads_span_only (sp : list Z) :
  sp <> [] -> sp <> [HEADER; 3; END_] ->
  exists t,
    handle_packet (mkptr sp 0) (Z.of_nat (length sp)) = Some t /\
    forall rest,
      handle_packet (mkptr (sp ++ rest) 0) (Z.of_nat (length sp)) = Some t.
Proof.
  intros Hne Hbad.
  destruct (handle_packet_span_only sp Hne Hbad) as [t Ht].
  exists t. split; [| exact Ht].
  specialize (Ht []). rewrite app_nil_r in Ht. exact Ht.
Qed.

Lemma handle_packet_reads_span_only_witness :
  exists t,
    handle_packet (mkptr [0xAA; 0x06; 0x48; 0x69; 0xEB; 0xBB] 0) 6 = Some t /\
    forall rest,
      handle_packet (mkptr ([0xAA; 0x06; 0x48; 0x69; 0xEB; 0xBB] ++ rest) 0) 6
      = Some t.
Proof.
  apply (handle_packet_reads_span_only [0xAA; 0x06; 0x48; 0x69; 0xEB; 0xBB]);
    discriminate.
Defined.

(** ** Spans that are not one frame *)

Lemma last_frame (p : list Z) (c : Z) (pre : list Z) :
  last (pre ++ frame p c) 0 = END_.
Proof.
  unfold frame.
  replace (pre ++ [HEADER; 4 + Z.of_nat (length p)] ++ p ++ [c; END_])
    with ((pre ++ [HEADER; 4 + Z.of_nat (length p)] ++ p ++ [c]) ++ [END_]).
  - apply last_last.
  - rewrite <- !app_assoc. reflexivity.
Qed.

(** X9. Two packets received in one read are not taken apart: the span is
    answered with one NACK, after the warning that the declared length of
    the first packet is not the number of bytes received. *)
Theorem handle_packet_two_packets (p1 p2 rest : list Z) :
  handle_packet (mkptr ((packet p1 ++ packet p2) ++ rest) 0)
                (Z.of_nat (length (packet p1 ++ packet p2)))
  = Some [LogW (MsgLengthMismatch (4 + Z.of_nat (length p1))
                  (Z.of_nat (length (packet p1 ++ packet p2))));
          UartWrite [NACK]].
Proof.
  assert (Hsp : packet p1 ++ packet p2 <> []) by discriminate.
  assert (Hlen : length (packet p1 ++ packet p2)
                 = (length p1 + length p2 + 8)%nat).
  { rewrite length_app, !length_packet. lia. }
  apply handle_packet_bad_length.
  - reflexivity.
  - lia.
  - rewrite span_last by assumption. f_equal.
    rewrite packet_frame with (p := p2). apply last_frame.
  - reflexivity.
  - lia.
Qed.

(** X10. A packet cut short, as when a read returns before the whole packet
    has arrived, is answered with NACK: every proper non-empty prefix of a
    packet fails the end-marker check or the length check. *)
Theorem handle_packet_truncated_packet (p rest : list Z) (k : nat) :
  (0 < k < length (packet p))%nat ->
  exists t,
    handle_packet (mkptr (firstn k (packet p) ++ rest) 0) (Z.of_nat k)
    = Some t /\
    responds t NACK.
Proof.
  intros Hk. rewrite length_packet in Hk.
  set (sp := firstn k (packet p)).
  assert (Hlen : length sp = k).
  { unfold sp. rewrite length_firstn, length_packet. lia. }
  assert (Hsp : sp <> []) by (intros H; rewrite H in Hlen; simpl in Hlen; lia).
  assert (Hnth : forall j, (j < k)%nat ->
            nth_error (sp ++ rest) j = nth_error (packet p) j).
  { intros j Hj. rewrite nth_error_span by lia. unfold sp.
    rewrite nth_error_firstn.
    destruct (Nat.ltb_spec j k); [reflexivity | lia]. }
  assert (E0 : nth_error (sp ++ rest) 0 = Some HEADER)
    by (rewrite Hnth by lia; reflexivity).
  pose proof (span_last sp rest Hsp) as El. rewrite Hlen in El.
  assert (Hpos : 0 < Z.of_nat k) by lia.
  destruct (Z.eq_dec (last sp 0) END_) as [Hl | Hl].
  - destruct (Nat.eq_dec k 1) as [-> | Hk1].
    + exfalso. change (Z.to_nat (Z.of_nat 1 - 1)) with 0%nat in El.
      rewrite E0, Hl in El. discriminate.
    + assert (E1 : nth_error (sp ++ rest) 1
                   = Some (4 + Z.of_nat (length p)))
        by (rewrite Hnth by lia; reflexivity).
      rewrite Hl in El.
      rewrite (handle_packet_bad_length _ _ _ E0 Hpos El E1) by lia.
      eexists. split; [reflexivity | split; reflexivity].
  - rewrite (handle_packet_bad_end _ _ _ E0 Hpos El Hl).
    eexists. split; [reflexivity | split; reflexivity].
Qed.

Lemma handle_packet_truncated_packet_witness :
  exists t,
    handle_packet (mkptr (firstn 5 (packet [0x48; 0x69]) ++ [0xBB]) 0) 5
    = Some t /\
    responds t NACK.
Proof.
  apply (handle_packet_truncated_packet [0x48; 0x69] [0xBB] 5).
  simpl. lia.
Defined.

(** ** Single-bit errors anywhere in the span *)

Lemma sub_update_outside (f : Z -> Z) (data : list Z) (i a n : nat) :
  (i < a \/ a + n <= i)%nat ->
  sub (update data i f) a n = sub data a n.
Proof.
  intros Hi. apply nth_error_ext. intros j.
  destruct (Nat.ltb_spec j n) as [Hlt | Hge].
  - rewrite !nth_error_sub by assumption.
    apply nth_error_update_neq. lia.
  - transitivity (@None Z); [| symmetry]; apply nth_error_None;
      unfold sub; rewrite length_firstn; lia.
Qed.

Lemma crc8_flip_differs (data : list Z) (i n : nat) (k b : Z) :
  bytes_ok data -> nth_error data i = Some b ->
  (2 <= i < 2 + n)%nat -> 0 <= k < 8 ->
  crc8 (sub data 2 n) <> crc8 (sub (flip data i k) 2 n).
Proof.
  intros Hok Eb Hi Hk.
  apply (fold_crc_differ (sub data 2 n) (sub (flip data i k) 2 n)
           (i - 2) b (flip_bit b k)).
  - apply bytes_ok_sub. assumption.
  - apply bytes_ok_sub, bytes_ok_update; [| assumption].
    intros x Hx. apply flip_bit_range; assumption.
  - lia.
  - intros j Hj.
    destruct (Nat.ltb_spec j n) as [Hlt | Hge].
    + rewrite !nth_error_sub by assumption. symmetry.
      apply nth_error_update_neq. lia.
    + transitivity (@None Z); [| symmetry]; apply nth_error_None;
        unfold sub; rewrite length_firstn; lia.
  - rewrite nth_error_sub by lia.
    replace (2 + (i - 2))%nat with i by lia. assumption.
  - rewrite nth_error_sub by lia.
    replace (2 + (i - 2))%nat with i by lia.
    exact (nth_error_update_eq (fun x => flip_bit x k) data i b Eb).
  - intros H. symmetry in H. revert H. apply flip_bit_neq. assumption.
Qed.

(** X8. When a buffer content is answered with ACK, inverting one bit of
    any byte of the received span (header, length byte, payload, CRC byte
    or end marker) turns the answer into NACK. *)
Theorem handle_packet_detects_any_bit_flip
    (data : list Z) (len : Z) (t : trace) (i : nat) (k : Z) :
  bytes_ok data ->
  handle_packet (mkptr data 0) len = Some t ->
  responds t ACK ->
  Z.of_nat i < len ->
  0 <= k < 8 ->
  exists t',
    handle_packet (mkptr (flip data i k) 0) len = Some t' /\
    responds t' NACK.
Proof.
  intros Hok Ht [Hack _] Hi Hk.
  destruct (handle_packet_ack_inv data len t Ht Hack)
    as (E0 & Hpos & El & E1 & Ec & _).
  pose proof (to_uint8_range (len - 4)) as Hp.
  set (plen := to_uint8 (len - 4)) in *.
  pose proof (bytes_ok_nth data 1 len Hok E1) as Hlen.
  assert (Hin : (Z.to_nat (2 + plen) < length data)%nat).
  { apply nth_error_Some. congruence. }
  assert (Hl1 : (Z.to_nat (len - 1) < length data)%nat).
  { apply nth_error_Some. congruence. }
  destruct (nth_error data i) as [b |] eqn:Eb.
  2: { apply nth_error_None in Eb. lia. }
  pose proof (bytes_ok_nth data i b Hok Eb) as Hb.
  pose proof (nth_error_update_eq (fun x => flip_bit x k) data i b Eb) as Eb'.
  fold (flip data i k) in Eb'.
  assert (Hsame : forall j, j <> i ->
            nth_error (flip data i k) j = nth_error data j).
  { intros j Hj. apply nth_error_update_neq. assumption. }
  pose proof (flip_bit_neq b k Hk) as Hflip.
  assert (Hnack : forall t0, t0 = send_byte NACK \/
            (exists a c, t0 = LogW (MsgLengthMismatch a c) :: send_byte NACK) \/
            (exists a c, t0 = crc_rejected a c) ->
            responds t0 NACK).
  { intros t0 [-> | [(a & c & ->) | (a & c & ->)]]; split; reflexivity. }
  destruct (Nat.eq_dec i 0) as [-> | Hi0].
  { assert (b = HEADER) as -> by congruence.
    rewrite (handle_packet_bad_header _ len _ Eb' Hflip).
    eexists. split; [reflexivity | apply Hnack; auto]. }
  assert (E0' : nth_error (flip data i k) 0 = Some HEADER)
    by (rewrite Hsame by lia; assumption).
  destruct (Nat.eq_dec i (Z.to_nat (len - 1))) as [Hil | Hil].
  { assert (b = END_) as -> by congruence.
    assert (El' : nth_error (flip data i k) (Z.to_nat (len - 1))
                  = Some (flip_bit END_ k)) by (rewrite <- Hil; exact Eb').
    rewrite (handle_packet_bad_end _ len _ E0' Hpos El' Hflip).
    eexists. split; [reflexivity | apply Hnack; auto]. }
  assert (El' : nth_error (flip data i k) (Z.to_nat (len - 1)) = Some END_)
    by (rewrite Hsame by lia; assumption).
  destruct (Nat.eq_dec i 1) as [-> | Hi1].
  { assert (b = len) as -> by congruence.
    assert (Hne : len <> flip_bit len k) by congruence.
    rewrite (handle_packet_bad_length _ len _ E0' Hpos El' Eb' Hne).
    eexists. split; [reflexivity | apply Hnack; eauto]. }
  assert (E1' : nth_error (flip data i k) 1 = Some len)
    by (rewrite Hsame by lia; assumption).
  assert (Hpl : plen = len - 4).
  { unfold plen. apply to_uint8_small. lia. }
  destruct (Nat.eq_dec i (Z.to_nat (2 + plen))) as [Hic | Hic].
  - assert (Ec' : nth_error (flip data i k) (Z.to_nat (2 + plen))
                  = Some (flip_bit b k)) by (rewrite <- Hic; exact Eb').
    rewrite (handle_packet_checksum _ len _ E0' Hpos El' E1' Ec').
    fold plen.
    assert (Hsub : sub (flip data i k) 2 (Z.to_nat plen)
                   = sub data 2 (Z.to_nat plen))
      by (apply sub_update_outside; lia).
    rewrite Hsub.
    assert (Hcrc : b = crc8 (sub data 2 (Z.to_nat plen))).
    { rewrite Hic in Eb. congruence. }
    rewrite <- Hcrc.
    destruct (Z.eqb_spec (flip_bit b k) b) as [H | _]; [contradiction |].
    eexists. split; [reflexivity | apply Hnack; eauto].
  - assert (Ec' : nth_error (flip data i k) (Z.to_nat (2 + plen))
                  = Some (crc8 (sub data 2 (Z.to_nat plen))))
      by (rewrite Hsame by lia; assumption).
    rewrite (handle_packet_checksum _ len _ E0' Hpos El' E1' Ec').
    fold plen.
    assert (Hrange : (2 <= i < 2 + Z.to_nat plen)%nat) by lia.
    pose proof (crc8_flip_differs data i (Z.to_nat plen) k b Hok Eb
                  Hrange Hk) as Hdiff.
    destruct (Z.eqb_spec (crc8 (sub data 2 (Z.to_nat plen)))
                (crc8 (sub (flip data i k) 2 (Z.to_nat plen))))
      as [H | _]; [contradiction |].
    eexists. split; [reflexivity | apply Hnack; eauto].
Qed.

Lemma handle_packet_detects_any_bit_flip_witness :
  exists t',
    handle_packet
      (mkptr (flip [0xAA; 0x06; 0x48; 0x69; 0xEB; 0xBB; 0x00] 4 0) 0) 6
    = Some t' /\ responds t' NACK.
Proof.
  apply (handle_packet_detects_any_bit_flip
           [0xAA; 0x06; 0x48; 0x69; 0xEB; 0xBB; 0x00] 6
           [LogI (MsgValidPacket 2 [0x48; 0x69]); UartWrite [ACK]] 4 0).
  - reflexivity.
  - reflexivity.
  - split; reflexivity.
  - simpl. lia.
  - lia.
Defined.

(** ** The loop of app_main over many reads *)

Lemma loop_body_no_data (handler : ptr -> Z -> option trace) (buffer : list Z) :
  loop_body handler buffer RxError = Some (buffer, []) /\
  loop_body handler buffer (RxBytes []) = Some (buffer, []).
Proof. split; reflexivity. Qed.

Lemma loop_body_step (buffer : list Z) (r : rx) :
  Z.of_nat (length buffer) = BUF_SIZE -> rx_fits r ->
  exists buffer' t,
    loop_body handle_packet buffer r = Some (buffer', t) /\
    Z.of_nat (length buffer') = BUF_SIZE /\
    answered r t.
Proof.
  intros Hbuf Hfit. unfold BUF_SIZE in *.
  destruct r as [| [| b bs]].
  - exists buffer, []. repeat split. assumption.
  - exists buffer, []. repeat split. assumption.
  - cbn [rx_fits] in Hfit. unfold BUF_SIZE in Hfit.
    set (sp := b :: bs) in *.
    assert (Hne : sp <> []) by discriminate.
    pose proof (span_nonempty sp Hne) as Hpos.
    assert (Hlb : length (sp ++ skipn (length sp) buffer) = length buffer)
      by (apply length_received; lia).
    destruct (list_eq_dec Z.eq_dec sp [HANDSHAKE_REQ]) as [Hhs | Hhs].
    + rewrite Hhs in *.
      do 2 eexists. split; [reflexivity |]. split.
      * cbn [fst]. rewrite Hlb. assumption.
      * unfold sp in Hhs. injection Hhs as -> ->.
        split; [reflexivity | exists HANDSHAKE_RESP; reflexivity].
    + destruct (loop_body_packet_path handle_packet buffer sp Hne Hhs)
        as (bytes & Hw & Hc & Hbody); [lia |].
      cbv zeta in Hbody.
      destruct (handle_packet_total (sp ++ skipn (length sp) buffer)
                  (Z.of_nat (length sp)))
        as (t' & Ht' & Hc' & Hw'); [lia | lia |].
      rewrite Hbody, Ht'. cbn [bind].
      do 2 eexists. split; [reflexivity |]. split; [lia |].
      unfold sp. cbn [answered]. split.
      * cbn [write_calls]. rewrite write_calls_app. lia.
      * cbn [written]. rewrite written_app, Hw.
        destruct Hw' as [-> | ->]; eexists; reflexivity.
Qed.

(** X11. The loop never stops on its input: for every sequence of reads
    that fit the 1024-byte buffer, whatever bytes they carry, no pass
    faults, every read with data is answered with exactly one byte, and a
    timeout or a read error is passed over without output. *)
Theorem app_main_never_faults (rs : list rx) : forall (buffer : list Z),
  Z.of_nat (length buffer) = BUF_SIZE ->
  Forall rx_fits rs ->
  exists ts,
    app_main buffer rs = Some ([LogI MsgUartInitialized] :: ts) /\
    Forall2 answered rs ts.
Proof.
  unfold app_main.
  induction rs as [| r rs IH]; intros buffer Hbuf Hfit.
  - exists []. split; [reflexivity | constructor].
  - inversion Hfit as [| r' rs' Hr Hrs]; subst.
    destruct (loop_body_step buffer r Hbuf Hr) as (buffer' & t & Hstep & Hb' & Ha).
    destruct (IH buffer' Hb' Hrs) as (ts & Hloop & Hall).
    exists (t :: ts). split; [| constructor; assumption].
    cbn [loop]. rewrite Hstep. cbn [bind fst snd].
    destruct (loop handle_packet buffer' rs) as [ts' |] eqn:El;
      [| discriminate].
    cbn [bind] in Hloop |- *. congruence.
Qed.

Lemma app_main_never_faults_witness :
  exists ts,
    app_main (repeat 0 1024)
      [RxBytes [0xB1]; RxError; RxBytes [0xAA; 0x03; 0xBB]; RxBytes []]
    = Some ([LogI MsgUartInitialized] :: ts) /\
    Forall2 answered
      [RxBytes [0xB1]; RxError; RxBytes [0xAA; 0x03; 0xBB]; RxBytes []] ts.
Proof.
  apply (app_main_never_faults
           [RxBytes [0xB1]; RxError; RxBytes [0xAA; 0x03; 0xBB]; RxBytes []]
           (repeat 0 1024)).
  - reflexivity.
  - repeat apply Forall_cons; try apply Forall_nil; cbn [rx_fits];
      try exact I; unfold BUF_SIZE; simpl; lia.
Defined.

Lemma reads_span (sp rest : list Z) : reads (mkptr (sp ++ rest) 0) 0 sp.
Proof.
  intros j Hj. rewrite load_nth by lia.
  replace (Z.to_nat (0 + (0 + Z.of_nat j))) with j by lia.
  apply nth_error_span. assumption.
Qed.

Lemma log_bytes_reads (l : list Z) : forall (p : ptr) (i : Z),
  reads p i l -> log_bytes p (length l) i = Some (byte_log l i).
Proof.
  induction l as [| b l IH]; intros p i H; [reflexivity |].
  apply reads_cons in H. destruct H as [Hb Hl].
  cbn [length log_bytes byte_log]. rewrite Hb. cbn [bind].
  rewrite (IH p (i + 1) Hl). reflexivity.
Qed.

Lemma loop_body_trace (handler : ptr -> Z -> option trace)
    (buffer bs : list Z) :
  bs <> [] -> bs <> [HANDSHAKE_REQ] ->
  let buffer' := bs ++ skipn (length bs) buffer in
  loop_body handler buffer (RxBytes bs)
  = (t <- handler (mkptr buffer' 0) (Z.of_nat (length bs)) ;;
     Some (buffer',
           LogI (MsgReceived (Z.of_nat (length bs))) :: byte_log bs 0 ++ t)).
Proof.
  intros Hne Hhs buffer'.
  pose proof (span_nonempty bs Hne) as Hpos.
  unfold loop_body, uart_read_bytes. fold buffer'.
  destruct (Z.ltb_spec 0 (Z.of_nat (length bs))); [| lia].
  assert (Hhand :
    (if Z.of_nat (length bs) =? 1
     then b0 <- load (mkptr buffer' 0) 0 ;; Some (b0 =? HANDSHAKE_REQ)
     else Some false) = Some false).
  { destruct (Z.eqb_spec (Z.of_nat (length bs)) 1) as [H1 | H1];
      [| reflexivity].
    destruct bs as [| b [| b' bs]]; try (simpl in H1; lia).
    unfold buffer'. cbn.
    destruct (Z.eqb_spec b HANDSHAKE_REQ) as [-> | ]; [| reflexivity].
    contradiction Hhs. reflexivity. }
  rewrite Hhand. cbn [bind]. rewrite Nat2Z.id.
  unfold buffer' at 1.
  rewrite (log_bytes_reads bs _ 0 (reads_span bs _)). reflexivity.
Qed.

(** X12. No state is carried from one read to the next: except for the
    read [0xAA, 0x03, 0xBB], what a pass logs and writes is fixed by the
    bytes of the read alone, whatever earlier reads left in the buffer. *)
Theorem app_main_step_history_free (bs : list Z) :
  bs <> [HEADER; 3; END_] ->
  exists t, forall buffer,
    option_map snd (app_main_step buffer (RxBytes bs)) = Some t.
Proof.
  intros Hbad. unfold app_main_step.
  destruct bs as [| b bs'] eqn:Ebs.
  - exists []. intros buffer. reflexivity.
  - rewrite <- Ebs in *.
    assert (Hne : bs <> []) by (rewrite Ebs; discriminate).
    destruct (list_eq_dec Z.eq_dec bs [HANDSHAKE_REQ]) as [-> | Hhs].
    + exists [LogI (MsgReceived 1); UartWrite [HANDSHAKE_RESP];
              LogI MsgHandshakeOk].
      intros buffer. reflexivity.
    + destruct (handle_packet_span_only bs Hne Hbad) as [t Ht].
      exists (LogI (MsgReceived (Z.of_nat (length bs))) :: byte_log bs 0 ++ t).
      intros buffer.
      rewrite (loop_body_trace handle_packet buffer bs Hne Hhs).
      cbv zeta. rewrite Ht. reflexivity.
Qed.

Lemma app_main_step_history_free_witness :
  exists t, forall buffer,
    option_map snd
      (app_main_step buffer (RxBytes [0xAA; 0x06; 0x48; 0x69; 0xEB; 0xBB]))
    = Some t.
Proof.
  apply (app_main_step_history_free [0xAA; 0x06; 0x48; 0x69; 0xEB; 0xBB]).
  discriminate.
Defined.

(** X13. A handshake byte that arrives together with further bytes in one
    read is not a handshake: the read goes to [handle_packet], fails the
    header check and is answered with NACK, never with 0x55. *)
Theorem app_main_handshake_not_alone (buffer : list Z) (b : Z) (bs : list Z) :
  exists buffer' t,
    app_main_step buffer (RxBytes (HANDSHAKE_REQ :: b :: bs))
    = Some (buffer', t) /\
    written t = [NACK] /\ write_calls t = 1%nat.
Proof.
  set (sp := HANDSHAKE_REQ :: b :: bs).
  assert (Hne : sp <> []) by discriminate.
  assert (Hhs : sp <> [HANDSHAKE_REQ]) by discriminate.
  unfold app_main_step.
  rewrite (loop_body_trace handle_packet buffer sp Hne Hhs). cbv zeta.
  rewrite (handle_packet_bad_header _ _ HANDSHAKE_REQ) by
    (try reflexivity; discriminate).
  cbn [bind]. do 2 eexists. split; [reflexivity |].
  cbn [written write_calls]. rewrite written_app, write_calls_app.
  assert (Hlog : forall l i, written (byte_log l i) = [] /\
                             write_calls (byte_log l i) = O).
  { induction l as [| x l IH]; intros i; [split; reflexivity |].
    cbn [byte_log written write_calls]. apply IH. }
  destruct (Hlog sp 0) as [-> ->]. split; reflexivity.
Qed.

(** X14. End to end: a read that delivers the packet of a payload of at
    most 251 bytes is logged byte by byte, reported as a valid packet with
    its payload, and answered with ACK; the packet is left at the front of
    the buffer. *)
Theorem app_main_step_packet (buffer p : list Z) :
  4 + Z.of_nat (length p) <= 255 ->
  app_main_step buffer (RxBytes (packet p))
  = Some (packet p ++ skipn (length (packet p)) buffer,
          LogI (MsgReceived (Z.of_nat (length p) + 4))
          :: byte_log (packet p) 0
             ++ [LogI (MsgValidPacket (Z.of_nat (length p)) (c_str p));
                 UartWrite [ACK]]).
Proof.
  intros Hfit.
  assert (Hne : packet p <> []) by discriminate.
  assert (Hhs : packet p <> [HANDSHAKE_REQ]) by discriminate.
  unfold app_main_step.
  rewrite (loop_body_trace handle_packet buffer (packet p) Hne Hhs). cbv zeta.
  replace (Z.of_nat (length p) + 4) with (Z.of_nat (length (packet p)))
    by (rewrite length_packet; lia).
  pose proof (handle_packet_frame p (crc8 p)
                (skipn (length (packet p)) buffer) Hfit) as H.
  rewrite Z.eqb_refl in H. rewrite <- packet_frame in H.
  rewrite H. reflexivity.
Qed.

Lemma app_main_step_packet_witness :
  app_main_step (repeat 0 8) (RxBytes (packet [0x48; 0x69]))
  = Some (packet [0x48; 0x69] ++ skipn (length (packet [0x48; 0x69])) (repeat 0 8),
          LogI (MsgReceived (Z.of_nat (length [0x48; 0x69]) + 4))
          :: byte_log (packet [0x48; 0x69]) 0
             ++ [LogI (MsgValidPacket (Z.of_nat (length [0x48; 0x69]))
                         (c_str [0x48; 0x69]));
                 UartWrite [ACK]]).
Proof.
  apply (app_main_step_packet (repeat 0 8) [0x48; 0x69]). simpl. lia.
Defined.

(** ** Parity of the checksum *)

Lemma crc_shift_parity (c : Z) :
  0 <= c < 256 -> parity8 (crc_shift c) = parity8 c.
Proof.
  intros H.
  assert (Hall : forallb (fun x => Bool.eqb (parity8 (crc_shift x)) (parity8 x))
                   (upto 256) = true) by (vm_compute; reflexivity).
  rewrite forallb_forall in Hall.
  apply eqb_prop, Hall, In_upto. simpl. lia.
Qed.

Lemma crc_inner_parity (j : nat) : forall c,
  0 <= c < 256 -> parity8 (crc_inner j c) = parity8 c.
Proof.
  induction j as [| j IH]; intros c Hc; [reflexivity |].
  cbn [crc_inner]. rewrite IH by apply crc_shift_range.
  apply crc_shift_parity. assumption.
Qed.

Lemma fold_xorb_init (l : list bool) : forall a,
  fold_left xorb l a = xorb a (fold_left xorb l false).
Proof.
  induction l as [| x l IH]; intros a; simpl.
  - destruct a; reflexivity.
  - rewrite IH, (IH x). destruct a, x; simpl; try reflexivity;
      destruct (fold_left xorb l false); reflexivity.
Qed.

Lemma fold_xorb_map2 (g h : Z -> bool) (l : list Z) :
  fold_left xorb (map (fun n => xorb (g n) (h n)) l) false
  = xorb (fold_left xorb (map g l) false) (fold_left xorb (map h l) false).
Proof.
  induction l as [| n l IH]; [reflexivity |].
  cbn [map fold_left].
  rewrite (fold_xorb_init _ (xorb false (xorb (g n) (h n)))), IH.
  rewrite (fold_xorb_init _ (xorb false (g n))).
  rewrite (fold_xorb_init _ (xorb false (h n))).
  destruct (g n), (h n), (fold_left xorb (map g l) false),
    (fold_left xorb (map h l) false); reflexivity.
Qed.

Lemma parity8_lxor (a b : Z) :
  parity8 (Z.lxor a b) = xorb (parity8 a) (parity8 b).
Proof.
  unfold parity8. rewrite <- fold_xorb_map2. f_equal.
  apply map_ext. intros n. apply Z.lxor_spec.
Qed.

Lemma fold_crc_parity (l : list Z) : forall c,
  bytes_ok l -> 0 <= c < 256 ->
  parity8 (fold_left crc_byte l c) = xorb (parity8 c) (parity_bytes l).
Proof.
  unfold parity_bytes.
  induction l as [| b l IH]; intros c Hl Hc; cbn [fold_left map].
  - destruct (parity8 c); reflexivity.
  - apply bytes_ok_cons in Hl. destruct Hl as [Hb Hl].
    rewrite IH by (try assumption; apply crc_byte_uint8).
    unfold crc_byte. rewrite crc_inner_parity by (apply lxor_uint8; assumption).
    rewrite parity8_lxor, (fold_xorb_init _ (xorb false (parity8 b))).
    destruct (parity8 c), (parity8 b),
      (fold_left xorb (map parity8 l) false); reflexivity.
Qed.

(** X15. The checksum keeps the parity of the data: the checksum of a byte
    sequence has an odd number of set bits exactly when the sequence has.
    So a change of an odd number of bits in the data always changes the
    checksum. *)
Theorem crc8_parity (l : list Z) :
  bytes_ok l ->
  parity8 (crc8 l) = parity_bytes l /\
  (forall l', bytes_ok l' -> parity_bytes l' <> parity_bytes l ->
              crc8 l' <> crc8 l).
Proof.
  intros Hl.
  assert (H : forall x, bytes_ok x -> parity8 (crc8 x) = parity_bytes x).
  { intros x Hx. unfold crc8. rewrite fold_crc_parity by (try assumption; lia).
    reflexivity. }
  split; [apply H; assumption |].
  intros l' Hl' Hpar Heq. apply Hpar.
  rewrite <- !H by assumption. rewrite Heq. reflexivity.
Qed.

Lemma crc8_parity_witness :
  parity8 (crc8 [0x48; 0x69]) = parity_bytes [0x48; 0x69] /\
  (forall l', bytes_ok l' -> parity_bytes l' <> parity_bytes [0x48; 0x69] ->
              crc8 l' <> crc8 [0x48; 0x69]).
Proof. apply (crc8_parity [0x48; 0x69]). reflexivity. Defined.

(** ** The size ceiling and the payload length *)

(** C10. A span of more than 255 bytes is answered with NACK, and a span
    that is answered with ACK has at most 255 bytes.  The payload of an
    accepted span is not always at most 251 bytes: the read
    [0xAA, 0x03, 0xBB], after a read of 258 bytes that left 0x28 at index
    257, is reported as a valid packet with a payload length of 255 and
    answered with ACK. *)
Theorem handle_packet_ceiling_payload_255 :
  (forall sp rest : list Z,
     bytes_ok sp -> 255 < Z.of_nat (length sp) ->
     exists t,
       handle_packet (mkptr (sp ++ rest) 0) (Z.of_nat (length sp)) = Some t /\
       written t = [NACK] /\ write_calls t = 1%nat) /\
  (forall (sp rest : list Z) (t : trace),
     bytes_ok sp ->
     handle_packet (mkptr (sp ++ rest) 0) (Z.of_nat (length sp)) = Some t ->
     written t = [ACK] ->
     Z.of_nat (length sp) <= 255) /\
  option_map (fun ts => last ts [])
    (app_main (repeat 0 1024)
       [RxBytes (repeat 0 257 ++ [0x28]); RxBytes [0xAA; 0x03; 0xBB]])
  = Some [LogI (MsgReceived 3);
          LogI (MsgByte 0 0xAA); LogI (MsgByte 1 0x03); LogI (MsgByte 2 0xBB);
          LogI (MsgValidPacket 255 [0xBB]); UartWrite [ACK]] /\
  ~ 255 <= 251.
Proof.
  split; [| split; [| split]].
  - intros sp rest Hok Hlen.
    destruct (proj1 (handle_packet_size_ceiling sp rest Hok) Hlen)
      as (t & Ht & Hw & Hc).
    exists t. auto.
  - intros sp rest t Hok Ht Hack.
    destruct (Z.le_gt_cases (Z.of_nat (length sp)) 255) as [| Hgt];
      [assumption |].
    destruct (proj1 (handle_packet_size_ceiling sp rest Hok) ltac:(lia))
      as (t' & Ht' & Hn & _).
    rewrite Ht in Ht'. injection Ht' as <-.
    destruct (written_NACK_not_ACK t Hn Hack).
  - vm_compute. reflexivity.
  - lia.
Qed.
